(** * discord.ext.commands.bot — a shallow embedding of [Bot]

    The development follows [src/discord/ext/commands/bot.py]: the built-in
    help command, listener dispatch, cogs, extensions and the processing of
    one message.  Python objects are records, dictionaries are [gmap]s, and
    every method is a function on the bot's state that either returns or
    raises. *)

From stdpp Require Import gmap strings list fin_maps.

Set Warnings "-register-all,-clear-no-such-hyp".
Open Scope string_scope.
Open Scope list_scope.

(** ** Data model *)

(** A function object as the listener table sees it: [__name__],
    [__module__], whether [asyncio.iscoroutinefunction] accepts it, and its
    identity.  [list.remove] and [is] compare function objects, which here is
    equality of the record. *)
Record Listener := mkListener {
  l_name : string;
  l_module : string;
  l_coroutine : bool;
  l_id : nat
}.

#[global] Instance Listener_eq_dec : EqDecision Listener.
Proof. solve_decision. Defined.

(** A [Command] of [core.py].  A command that is a [GroupMixin] carries a
    [commands] dictionary of its own ([cmd_commands = Some _]); a plain
    command has no such attribute.  [cmd_module] is the identity of the
    module object the command belongs to, [cmd_instance] the key of the cog
    bound to it, [cmd_parent] the name of the parent command. *)
Inductive Command := mkCommand {
  cmd_name : string;
  cmd_aliases : list string;
  cmd_module : option nat;
  cmd_instance : option string;
  cmd_parent : option string;
  cmd_commands : option (list (string * Command))
}.

Definition set_cmd_module (m : option nat) (c : Command) : Command :=
  mkCommand (cmd_name c) (cmd_aliases c) m (cmd_instance c) (cmd_parent c)
            (cmd_commands c).

Definition set_cmd_instance (i : option string) (c : Command) : Command :=
  mkCommand (cmd_name c) (cmd_aliases c) (cmd_module c) i (cmd_parent c)
            (cmd_commands c).

Definition set_cmd_commands (s : option (list (string * Command)))
    (c : Command) : Command :=
  mkCommand (cmd_name c) (cmd_aliases c) (cmd_module c) (cmd_instance c)
            (cmd_parent c) s.

(** [isinstance(command, GroupMixin)] *)
Definition is_group (c : Command) : bool :=
  match cmd_commands c with Some _ => true | None => false end.

(** [dict.get] on the dictionary of a group: the first binding of the key. *)
Fixpoint assoc_get {A} (k : string) (d : list (string * A)) : option A :=
  match d with
  | [] => None
  | (k', v) :: d' => if decide (k = k') then Some v else assoc_get k d'
  end.

(** What [inspect.getmembers(cog)] yields for one attribute. *)
Inductive Member :=
| MCommand (c : Command)
| MFunc (f : Listener)
| MData.

(** The exceptions the methods raise or let through. *)
Inductive Exc :=
| ClientException (msg : string)
| AttributeError (what : string)
| KeyError (key : string)
| ImportError (name : string)
| CommandNotFound (invoker : string)
| OtherError (msg : string).

(** Outcome of the optional teardown hook [_<Class>__unload] of a cog: the
    attribute is absent, or it is called and returns or raises. *)
Inductive Hook :=
| NoHook
| HookReturns
| HookRaises (e : Exc).

(** A cog instance: [type(cog).__name__], the [__module__] of its class, the
    list [inspect.getmembers] returns (sorted by name, the hook apart), and
    the hook. *)
Record Cog := mkCog {
  cog_class : string;
  cog_module : string;
  cog_members : list (string * Member);
  cog_unload : Hook
}.

(** The body of an extension's [setup(bot)]: the registrations it performs. *)
Inductive Action :=
| AddCog (c : Cog)
| AddCommand (c : Command)
| AddListener (f : Listener) (name : option string).

(** A module object: its name, its identity, and its [setup] attribute. *)
Record ModuleObj := mkModule {
  mod_name : string;
  mod_id : nat;
  mod_setup : option (list Action)
}.

(** [a is b] on module objects. *)
Definition module_is (a b : ModuleObj) : bool := Nat.eqb (mod_id a) (mod_id b).

Record Message := mkMessage {
  content : string;
  author : string;
  channel : string
}.

(** [StringView]: a buffer and a cursor. *)
Record StringView := mkView {
  buffer : string;
  index : nat
}.

Record Context := mkContext {
  ctx_invoked_with : string;
  ctx_message : Message;
  ctx_view : StringView;
  ctx_prefix : string;
  ctx_command : option Command
}.

(** Positional arguments of an event. *)
Inductive Arg :=
| ACommand (c : Command)
| AContext (c : Context)
| AExc (e : Exc)
| AMessage (m : Message).

(** A listener wrapped by [_run_extra] and handed to [create_task]. *)
Record Task := mkTask {
  task_coro : Listener;
  task_event : string;
  task_args : list Arg
}.

(** Where [send_message] delivers. *)
Inductive Destination :=
| ToAuthor (user : string)
| ToChannel (chan : string).

(** What the help command sends: a page of the formatter, or one of the two
    format strings applied to its arguments ([str.format] is left applied). *)
Inductive Text :=
| Page (p : string)
| NotFoundText (fmt : string) (name : string)
| NoSubcommandsText (fmt : string) (cmd : Command) (key : string).

(** The state the methods of [Bot] read and write: the attributes of the
    instance, then the interpreter's module cache and the observable effects
    of the client ([dispatch] of the base class, [create_task],
    [send_message]). *)
Record Bot := mkBot {
  user : string;
  pm_help : option bool;
  command_not_found : string;
  command_has_no_subcommands : string;
  cogs : gmap string Cog;
  commands : gmap string Command;
  extra_events : gmap string (list Listener);
  extensions : gmap string ModuleObj;
  sys_modules : gmap string ModuleObj;
  next_module_id : nat;
  executed : list string;
  emitted : list (string * list Arg);
  scheduled : list Task;
  sent : list (Destination * Text);
  unloaded : list string
}.

Definition set_cogs (f : gmap string Cog → gmap string Cog) (b : Bot) : Bot :=
  mkBot (user b) (pm_help b) (command_not_found b)
        (command_has_no_subcommands b) (f (cogs b)) (commands b)
        (extra_events b) (extensions b) (sys_modules b) (next_module_id b)
        (executed b) (emitted b) (scheduled b) (sent b) (unloaded b).

Definition set_commands (f : gmap string Command → gmap string Command)
    (b : Bot) : Bot :=
  mkBot (user b) (pm_help b) (command_not_found b)
        (command_has_no_subcommands b) (cogs b) (f (commands b))
        (extra_events b) (extensions b) (sys_modules b) (next_module_id b)
        (executed b) (emitted b) (scheduled b) (sent b) (unloaded b).

Definition set_extra_events
    (f : gmap string (list Listener) → gmap string (list Listener))
    (b : Bot) : Bot :=
  mkBot (user b) (pm_help b) (command_not_found b)
        (command_has_no_subcommands b) (cogs b) (commands b)
        (f (extra_events b)) (extensions b) (sys_modules b)
        (next_module_id b) (executed b) (emitted b) (scheduled b) (sent b)
        (unloaded b).

Definition set_extensions
    (f : gmap string ModuleObj → gmap string ModuleObj) (b : Bot) : Bot :=
  mkBot (user b) (pm_help b) (command_not_found b)
        (command_has_no_subcommands b) (cogs b) (commands b)
        (extra_events b) (f (extensions b)) (sys_modules b)
        (next_module_id b) (executed b) (emitted b) (scheduled b) (sent b)
        (unloaded b).

Definition set_sys_modules
    (f : gmap string ModuleObj → gmap string ModuleObj) (b : Bot) : Bot :=
  mkBot (user b) (pm_help b) (command_not_found b)
        (command_has_no_subcommands b) (cogs b) (commands b)
        (extra_events b) (extensions b) (f (sys_modules b))
        (next_module_id b) (executed b) (emitted b) (scheduled b) (sent b)
        (unloaded b).

(** Executing the top-level code of a module: a fresh identity is taken and
    the module name is logged. *)
Definition record_execution (name : string) (b : Bot) : Bot :=
  mkBot (user b) (pm_help b) (command_not_found b)
        (command_has_no_subcommands b) (cogs b) (commands b)
        (extra_events b) (extensions b) (sys_modules b)
        (S (next_module_id b)) (executed b ++ [name]) (emitted b)
        (scheduled b) (sent b) (unloaded b).

Definition emit (ev : string) (args : list Arg) (b : Bot) : Bot :=
  mkBot (user b) (pm_help b) (command_not_found b)
        (command_has_no_subcommands b) (cogs b) (commands b)
        (extra_events b) (extensions b) (sys_modules b) (next_module_id b)
        (executed b) (emitted b ++ [(ev, args)]) (scheduled b) (sent b)
        (unloaded b).

Definition create_task (t : Task) (b : Bot) : Bot :=
  mkBot (user b) (pm_help b) (command_not_found b)
        (command_has_no_subcommands b) (cogs b) (commands b)
        (extra_events b) (extensions b) (sys_modules b) (next_module_id b)
        (executed b) (emitted b) (scheduled b ++ [t]) (sent b) (unloaded b).

Definition send_message (d : Destination) (t : Text) (b : Bot) : Bot :=
  mkBot (user b) (pm_help b) (command_not_found b)
        (command_has_no_subcommands b) (cogs b) (commands b)
        (extra_events b) (extensions b) (sys_modules b) (next_module_id b)
        (executed b) (emitted b) (scheduled b) (sent b ++ [(d, t)])
        (unloaded b).

Definition record_unload (key : string) (b : Bot) : Bot :=
  mkBot (user b) (pm_help b) (command_not_found b)
        (command_has_no_subcommands b) (cogs b) (commands b)
        (extra_events b) (extensions b) (sys_modules b) (next_module_id b)
        (executed b) (emitted b) (scheduled b) (sent b) (unloaded b ++ [key]).

(** ** Methods that return or raise *)

Inductive Res (A : Type) :=
| Ok (a : A) (b : Bot)
| Raise (e : Exc) (b : Bot).
Arguments Ok {A} a b.
Arguments Raise {A} e b.

Definition M (A : Type) : Type := Bot → Res A.

Definition ret {A} (a : A) : M A := λ b, Ok a b.
Definition mthrow_exc {A} (e : Exc) : M A := λ b, Raise e b.
Definition bind {A B} (m : M A) (k : A → M B) : M B :=
  λ b, match m b with
       | Ok a b' => k a b'
       | Raise e b' => Raise e b'
       end.
Definition modify (f : Bot → Bot) : M unit := λ b, Ok tt (f b).
Definition gets {A} (f : Bot → A) : M A := λ b, Ok (f b) b.

#[global] Instance M_ret : MRet M := @ret.
#[global] Instance M_bind : MBind M := λ A B k m, bind m k.

(** The state a call leaves behind, whether it returned or raised. *)
Definition state_of {A} (r : Res A) : Bot :=
  match r with Ok _ b => b | Raise _ b => b end.

(** [for x in xs: body(x)] *)
Fixpoint for_each {A} (xs : list A) (body : A → M unit) : M unit :=
  match xs with
  | [] => ret tt
  | x :: xs' => body x ;; for_each xs' body
  end.

(** ** The command registry ([GroupMixin] of [core.py]) *)

(** The keys a command occupies at its level: its name and its aliases. *)
Definition cmd_keys (c : Command) : list string := cmd_name c :: cmd_aliases c.

(** Modelled from the spec: [GroupMixin.add_command], whose file [core.py] is
    not among the sources, on the dictionary [self.commands].  The registry
    maps name-or-alias to the command; "insert(command) fails if name or any
    alias already exists at this level" ([None]). *)
Definition registry_add (c : Command) (r : gmap string Command)
    : option (gmap string Command) :=
  if forallb (λ k, bool_decide (r !! k = None)) (cmd_keys c)
  then Some (foldr (λ k, <[k:=c]>) r (cmd_keys c))
  else None.

Definition add_command (c : Command) : M unit := λ b,
  match registry_add c (commands b) with
  | Some r => Ok tt (set_commands (λ _, r) b)
  | None => Raise (ClientException "Command is already registered.") b
  end.

(** Modelled from the spec: the detaching that removal of a group performs,
    "removing a group must recursively detach (not necessarily delete) every
    subcommand so the tree does not retain dangling parent references". *)
Fixpoint detach (c : Command) : Command :=
  mkCommand (cmd_name c) (cmd_aliases c) (cmd_module c) (cmd_instance c) None
    (match cmd_commands c with
     | None => None
     | Some subs => Some (map (λ kv, (kv.1, detach kv.2)) subs)
     end).

(** Modelled from the spec: [GroupMixin.remove_command], "remove(name) ->
    removed Command | not found", on the dictionary [self.commands].  The
    command found under [name] leaves this level, with the entry [name] and
    every key it occupies. *)
Definition registry_remove (name : string) (r : gmap string Command)
    : option Command * gmap string Command :=
  match r !! name with
  | None => (None, r)
  | Some c => (Some (detach c), foldr delete r (name :: cmd_keys c))
  end.

Definition remove_command (name : string) : M (option Command) := λ b,
  Ok (registry_remove name (commands b)).1
     (set_commands (λ r, (registry_remove name r).2) b).

(** Modelled from the spec: [GroupMixin.recursively_remove_all_commands],
    "recursively clearing subcommands": the group's own dictionary ends up
    empty; the subcommands, emptied in turn, are no longer reachable from
    it. *)
Definition recursively_remove_all_commands (c : Command) : Command :=
  match cmd_commands c with
  | None => c
  | Some _ => set_cmd_commands (Some []) c
  end.

(** ** Listener registration *)

(** [list.remove(x)]: the first occurrence goes; [None] is [ValueError]. *)
Fixpoint py_remove {A} `{EqDecision A} (x : A) (l : list A) : option (list A) :=
  match l with
  | [] => None
  | y :: l' => if decide (x = y) then Some l' else cons y <$> py_remove x l'
  end.

(** [list.remove(func)] inside [try ... except ValueError: pass]. *)
Definition remove_first {A} `{EqDecision A} (x : A) (l : list A) : list A :=
  match py_remove x l with
  | Some l' => l'
  | None => l
  end.

(** The two updates of [self.extra_events]. *)
Definition events_add (func : Listener) (name : string)
    (ev : gmap string (list Listener)) : gmap string (list Listener) :=
  match ev !! name with
  | Some l => <[name := l ++ [func]]> ev
  | None => <[name := [func]]> ev
  end.

Definition events_remove (func : Listener) (name : string)
    (ev : gmap string (list Listener)) : gmap string (list Listener) :=
  match ev !! name with
  | Some l => <[name := remove_first func l]> ev
  | None => ev
  end.

Definition add_listener (func : Listener) (name : option string) : M unit :=
  let name := match name with None => l_name func | Some n => n end in
  if negb (l_coroutine func)
  then mthrow_exc (ClientException "Listeners must be coroutines")
  else modify (set_extra_events (events_add func name)).

Definition remove_listener (func : Listener) (name : option string) : M unit :=
  let name := match name with None => l_name func | Some n => n end in
  modify (set_extra_events (events_remove func name)).

(** ** Cogs *)

(** [name.startswith('on_')] *)
Definition is_event_name (name : string) : bool := String.prefix "on_" name.

(** The body of the loop over [inspect.getmembers(cog)] in [add_cog]. *)
Definition add_member (cog : Cog) (nm : string * Member) : M unit :=
  match nm.2 with
  | MCommand member =>
      (* register commands the cog has *)
      let member := set_cmd_instance (Some (cog_class cog)) member in
      match cmd_parent member with
      | None => add_command member
      | Some _ => mret tt
      end
  | MFunc member =>
      (* register event listeners the cog has *)
      if is_event_name nm.1 then add_listener member None else mret tt
  | MData =>
      (* [add_listener] reads [func.__name__] *)
      if is_event_name nm.1
      then mthrow_exc (AttributeError "__name__")
      else mret tt
  end.

Definition add_cog (cog : Cog) : M unit :=
  modify (set_cogs <[cog_class cog := cog]>) ;;
  for_each (cog_members cog) (add_member cog).

Definition get_cog (name : string) : M (option Cog) :=
  gets (λ b, cogs b !! name).

(** The body of the loop over [inspect.getmembers(cog)] in [remove_cog]. *)
Definition remove_member (nm : string * Member) : M unit :=
  match nm.2 with
  | MCommand member =>
      (* remove commands the cog has *)
      let member := set_cmd_instance None member in
      match cmd_parent member with
      | None => remove_command (cmd_name member) ;; mret tt
      | Some _ => mret tt
      end
  | MFunc member =>
      (* remove event listeners the cog has *)
      if is_event_name nm.1 then remove_listener member None else mret tt
  | MData =>
      if is_event_name nm.1
      then mthrow_exc (AttributeError "__name__")
      else mret tt
  end.

(** [getattr(cog, unloader_name)()] inside [try ... except AttributeError:
    pass].  A call of the hook is recorded under the cog's class name. *)
Definition call_unload (cog : Cog) : M unit :=
  match cog_unload cog with
  | NoHook => mret tt
  | HookReturns => modify (record_unload (cog_class cog))
  | HookRaises (AttributeError _) => modify (record_unload (cog_class cog))
  | HookRaises e => modify (record_unload (cog_class cog)) ;; mthrow_exc e
  end.

Definition remove_cog (name : string) : M (option Cog) :=
  cog ← gets (λ b, cogs b !! name) ;
  modify (set_cogs (delete name)) ;;
  match cog with
  | None => mret cog
  | Some c =>
      for_each (cog_members c) remove_member ;;
      call_unload c ;;
      mret None
  end.

(** ** Extensions *)

(** [inspect.getmodule(obj) is lib], for an object whose [__module__] is
    [modname]: the module cache is consulted by name and the module found is
    compared with [lib] by identity. *)
Definition getmodule_is (modname : string) (lib : ModuleObj) (b : Bot) : bool :=
  match sys_modules b !! modname with
  | Some m => module_is m lib
  | None => false
  end.

(** [command.module is lib] *)
Definition command_module_is (c : Command) (lib : ModuleObj) : bool :=
  bool_decide (cmd_module c = Some (mod_id lib)).

(** The indices [remove] collects from [enumerate(event_list)]. *)
Definition indices_of_module (lib : ModuleObj) (b : Bot)
    (event_list : list Listener) : list nat :=
  (imap (λ index event, (index, event)) event_list)
    ≫= (λ ie, if getmodule_is (l_module ie.2) lib b then [ie.1] else []).

(** [for index in reversed(remove): del event_list[index]] *)
Definition delete_indices {A} (remove : list nat) (event_list : list A)
    : list A :=
  foldl (λ l index, delete index l) event_list (reverse remove).

Section Extensions.

(** What importing a module that is not cached executes: for each
    importable name, the [setup] attribute the module's top-level code
    defines, if any, given the identity of the new module object. *)
Variable source : string → option (nat → option (list Action)).

(** [importlib.import_module(name)]: a cached module is returned as it
    is; otherwise the top-level code runs once and the module enters
    [sys.modules]. *)
Definition import_module (name : string) : M ModuleObj := λ b,
  match sys_modules b !! name with
  | Some lib => Ok lib b
  | None =>
      match source name with
      | None => Raise (ImportError name) b
      | Some code =>
          let lib := mkModule name (next_module_id b)
                              (code (next_module_id b)) in
          Ok lib (set_sys_modules <[name := lib]> (record_execution name b))
      end
  end.

Definition run_action (a : Action) : M unit :=
  match a with
  | AddCog c => add_cog c
  | AddCommand c => add_command c
  | AddListener f name => add_listener f name
  end.

Definition load_extension (name : string) : M unit :=
  loaded ← gets (λ b, extensions b !! name) ;
  match loaded with
  | Some _ => mret tt
  | None =>
      lib ← import_module name ;
      match mod_setup lib with
      | None =>
          mthrow_exc
            (ClientException "extension does not have a setup function")
      | Some setup =>
          for_each setup run_action ;;
          modify (set_extensions <[name := lib]>)
      end
  end.

(** Body of the loop over [self.cogs.copy().items()]. *)
Definition unload_cog (lib : ModuleObj) (kc : string * Cog) : M unit :=
  from_lib ← gets (getmodule_is (cog_module kc.2) lib) ;
  if from_lib : bool then remove_cog kc.1 ;; mret tt else mret tt.

(** Body of the loop over [self.commands.copy().values()]. *)
Definition unload_command (lib : ModuleObj) (kc : string * Command)
    : M unit :=
  if command_module_is kc.2 lib then
    let command := set_cmd_module None kc.2 in
    let command :=
      if is_group command
      then recursively_remove_all_commands command
      else command in
    remove_command (cmd_name command) ;; mret tt
  else mret tt.

(** The loop over [self.extra_events.copy().values()]: the copy is
    shallow, every list is edited in place. *)
Definition unload_listeners (lib : ModuleObj) : M unit :=
  modify (λ b,
    set_extra_events
      (fmap (λ event_list,
         delete_indices (indices_of_module lib b event_list) event_list))
      b).

(** [del self.extensions[name]] and [del sys.modules[name]]. *)
Definition evict (name : string) : M unit :=
  modify (set_extensions (delete name)) ;;
  cached ← gets (λ b, sys_modules b !! name) ;
  match cached with
  | Some _ => modify (set_sys_modules (delete name))
  | None => mthrow_exc (KeyError name)
  end.

(** The three removal loops of [unload_extension], in the order of the
    source. *)
Definition unload_cogs (lib : ModuleObj) : M unit :=
  (* remove the cogs registered from the module *)
  cogs_copy ← gets (λ b, map_to_list (cogs b)) ;
  for_each cogs_copy (unload_cog lib).

Definition unload_commands (lib : ModuleObj) : M unit :=
  (* first remove all the commands from the module *)
  commands_copy ← gets (λ b, map_to_list (commands b)) ;
  for_each commands_copy (unload_command lib).

Definition unload_phases (lib : ModuleObj) : M unit :=
  unload_cogs lib ;;
  unload_commands lib ;;
  (* then remove all the listeners from the module *)
  unload_listeners lib.

Definition unload_extension (name : string) : M unit :=
  found ← gets (λ b, extensions b !! name) ;
  match found with
  | None => mret tt
  | Some lib =>
      unload_phases lib ;;
      (* finally remove the import.. *)
      evict name
  end.

End Extensions.

(** ** Listener dispatch *)

(** Modelled from the spec: [Client.dispatch] of the base class, whose file
    is not among the sources: "immediately executes any built-in handler for
    that name synchronously".  The emission is recorded. *)
Definition client_dispatch (event_name : string) (args : list Arg) : M unit :=
  modify (emit event_name args).

Definition dispatch (event_name : string) (args : list Arg) : M unit :=
  client_dispatch event_name args ;;
  let ev := String.append "on_" event_name in
  events ← gets (λ b, extra_events b !! ev) ;
  match events with
  | Some events =>
      for_each events (λ event,
        modify (create_task (mkTask event event_name args)))
  | None => mret tt
  end.

(** How awaiting a coroutine ends: it returns, it is cancelled, it raises an
    instance of [Exception], or it raises something that is only a
    [BaseException]. *)
Inductive Outcome :=
| Returns
| RaisesCancelled
| RaisesException (e : Exc)
| RaisesBase (what : string).

Section RunExtra.

(** The listeners' own code and the client's [on_error] hook. *)
Variable run_coro : Listener → list Arg → Outcome.
Variable on_error : string → list Arg → Outcome.

(** [_run_extra]: the calls of [on_error] it makes, and how it ends. *)
Definition _run_extra (coro : Listener) (event_name : string)
    (args : list Arg) : list (string * list Arg) * Outcome :=
  match run_coro coro args with
  | Returns => ([], Returns)
  | RaisesCancelled => ([], Returns)
  | RaisesException _ =>
      ([(event_name, args)],
       match on_error event_name args with
       | RaisesCancelled => Returns
       | o => o
       end)
  | RaisesBase w => ([], RaisesBase w)
  end.

(** The event loop running one scheduled task. *)
Definition run_task (t : Task) : list (string * list Arg) * Outcome :=
  _run_extra (task_coro t) (task_event t) (task_args t).

End RunExtra.

(** ** The built-in help command *)

(** What [format_help_for] is asked to render. *)
Inductive HelpTarget :=
| HelpBot
| HelpCog (c : Cog)
| HelpCommand (c : Command).

(** The walk over [commands[1:]]: [command.commands.get(key)] raises
    [AttributeError] on a command that is no group, and yields [None] on a
    group without that key.  [None] is an early [return]. *)
Fixpoint help_walk (destination : Destination) (command : Command)
    (keys : list string) : M (option Command) :=
  match keys with
  | [] => mret (Some command)
  | key :: keys' =>
      match cmd_commands command with
      | None =>
          bot ← gets id ;
          modify (send_message destination
                    (NoSubcommandsText (command_has_no_subcommands bot)
                                       command key)) ;;
          mret None
      | Some subcommands =>
          match assoc_get key subcommands with
          | None =>
              bot ← gets id ;
              modify (send_message destination
                        (NotFoundText (command_not_found bot) key)) ;;
              mret None
          | Some command' => help_walk destination command' keys'
          end
      end
  end.

(** [sum(map(lambda l: len(l), pages))] *)
Definition characters (pages : list string) : nat :=
  sum_list (String.length <$> pages).

Section Help.

(** [bot.formatter.format_help_for], the rendering engine. *)
Variable format_help_for : Context → HelpTarget → list string.

(** The three branches on [len(commands)]: the pages to send, or [None]
    when the branch has reported a failure and returned. *)
Definition help_pages (ctx : Context) (cmds : list string)
    (destination : Destination) : M (option (list string)) :=
  bot ← gets id ;
  match cmds with
  | [] => mret (Some (format_help_for ctx HelpBot))
  | [name] =>
      match cogs bot !! name with
      | Some cog => mret (Some (format_help_for ctx (HelpCog cog)))
      | None =>
          match commands bot !! name with
          | None =>
              modify (send_message destination
                        (NotFoundText (command_not_found bot) name)) ;;
              mret None
          | Some command =>
              mret (Some (format_help_for ctx (HelpCommand command)))
          end
      end
  | name :: keys =>
      match commands bot !! name with
      | None =>
          modify (send_message destination
                    (NotFoundText (command_not_found bot) name)) ;;
          mret None
      | Some command =>
          found ← help_walk destination command keys ;
          mret ((λ c, format_help_for ctx (HelpCommand c)) <$> found)
      end
  end.

Definition _default_help_command (ctx : Context) (cmds : list string)
    : M unit :=
  bot ← gets id ;
  let destination :=
    match pm_help bot with
    | Some true => ToAuthor (author (ctx_message ctx))
    | _ => ToChannel (channel (ctx_message ctx))
    end in
  pages ← help_pages ctx cmds destination ;
  match pages with
  | None => mret tt
  | Some pages =>
      let destination :=
        match pm_help bot with
        | None =>
            if bool_decide (1000 < characters pages)%nat
            then ToAuthor (author (ctx_message ctx))
            else destination
        | Some _ => destination
        end in
      for_each pages (λ page, modify (send_message destination (Page page)))
  end.

End Help.

(** ** Processing one message *)

(** What [command_prefix] evaluates to: one string, or a list or tuple. *)
Inductive PrefixValue :=
| PStr (s : string)
| PSeq (l : list string).

(** [command_prefix]: a value, or a callable taking the bot and the
    message. *)
Inductive PrefixSpec :=
| Static (v : PrefixValue)
| Callable (f : Bot → Message → PrefixValue).

(** The text the cursor has not consumed. *)
Definition remaining (view : StringView) : string :=
  String.substring (index view)
                   (String.length (buffer view) - index view) (buffer view).

(** Modelled from the spec: [StringView.skip_string], whose file [view.py] is
    not among the sources: "if the remaining text starts with s, advances
    the cursor past it and returns true; otherwise leaves the cursor
    unchanged and returns false". *)
Definition skip_string (s : string) (view : StringView) : bool * StringView :=
  if String.prefix s (remaining view)
  then (true, mkView (buffer view) (index view + String.length s))
  else (false, view).

(** Modelled from the spec: [discord.utils.find], whose file is not among
    the sources: "scan in order and accept the first".  The predicate is a
    bound method of the view and moves its cursor. *)
Fixpoint find {A S} (predicate : A → S → bool * S) (seq : list A) (st : S)
    : option A * S :=
  match seq with
  | [] => (None, st)
  | element :: seq' =>
      let r := predicate element st in
      if r.1 then (Some element, r.2) else find predicate seq' r.2
  end.

Section Processing.

Variable command_prefix : PrefixSpec.
(** [StringView.get_word] and [Command.invoke], of [view.py] and
    [core.py]. *)
Variable get_word : StringView → string * StringView.
Variable invoke : Command → Context → M unit.

Definition _get_prefix (message : Message) : M PrefixValue :=
  match command_prefix with
  | Callable prefix => gets (λ b, prefix b message)
  | Static prefix => mret prefix
  end.

(** The prefix step of [process_commands]: the prefix that invoked, and
    the view behind it; [None] is the early [return]. *)
Definition match_prefix (prefix : PrefixValue) (view : StringView)
    : option (string * StringView) :=
  match prefix with
  | PStr p =>
      let r := skip_string p view in
      if r.1 then Some (p, r.2) else None
  | PSeq ps =>
      let r := find skip_string ps view in
      match r.1 with
      | Some invoked_prefix => Some (invoked_prefix, r.2)
      | None => None
      end
  end.

Definition process_commands (message : Message) : M unit :=
  let view := mkView (content message) 0 in
  bot ← gets id ;
  if bool_decide (author message = user bot) then mret tt else
  prefix ← _get_prefix message ;
  match match_prefix prefix view with
  | None => mret tt
  | Some (invoked_prefix, view) =>
      let w := get_word view in
      let invoker := w.1 in
      let ctx := mkContext invoker message w.2 invoked_prefix None in
      registry ← gets commands ;
      match registry !! invoker with
      | Some command =>
          dispatch "command" [ACommand command; AContext ctx] ;;
          (* ctx.command = command *)
          let ctx :=
            mkContext invoker message w.2 invoked_prefix (Some command) in
          invoke command ctx ;;
          dispatch "command_completion" [ACommand command; AContext ctx]
      | None =>
          let exc := CommandNotFound invoker in
          dispatch "command_error" [AExc exc; AContext ctx]
      end
  end.

Definition on_message (message : Message) : M unit :=
  process_commands message.

End Processing.

(** ** Notions the properties are stated with *)

(** A cog whose removal cannot raise: no attribute named like an event lacks
    a [__name__], and the teardown hook raises at most [AttributeError]. *)
Definition quiet_member (nm : string * Member) : bool :=
  match nm.2 with
  | MData => negb (is_event_name nm.1)
  | _ => true
  end.

Definition quiet_hook (h : Hook) : bool :=
  match h with
  | HookRaises (AttributeError _) => true
  | HookRaises _ => false
  | _ => true
  end.

Definition quiet_teardown (c : Cog) : bool :=
  forallb quiet_member (cog_members c) && quiet_hook (cog_unload c).

(** What the registrations leave alone: the load table and the
    interpreter's module cache. *)
Definition same_imports (b b' : Bot) : Prop :=
  sys_modules b' = sys_modules b ∧ extensions b' = extensions b ∧
  executed b' = executed b ∧ next_module_id b' = next_module_id b.

(** What a member of a cog contributes: a command registered at the top
    level, or a listener. *)
Definition member_command (nm : string * Member) : option Command :=
  match nm.2 with
  | MCommand c =>
      match cmd_parent c with None => Some c | Some _ => None end
  | _ => None
  end.

Definition member_listener (nm : string * Member) : option Listener :=
  match nm.2 with
  | MFunc f => if is_event_name nm.1 then Some f else None
  | _ => None
  end.

(** The listeners registered for an event name; none when the name is no
    key of the table. *)
Definition listeners_of (name : string) (ev : gmap string (list Listener))
    : list Listener :=
  default [] (ev !! name).

(** The registrations of a list of commands, one after the other. *)
Fixpoint registry_adds (cs : list Command) (r : gmap string Command)
    : option (gmap string Command) :=
  match cs with
  | [] => Some r
  | c :: cs' =>
      match registry_add c r with
      | Some r1 => registry_adds cs' r1
      | None => None
      end
  end.

(** Their removals by name, one after the other. *)
Fixpoint registry_removes (names : list string) (r : gmap string Command)
    : gmap string Command :=
  match names with
  | [] => r
  | name :: names' => registry_removes names' (registry_remove name r).2
  end.

(** The listeners of a list registered, and removed, one after the other,
    each under its own [__name__]. *)
Fixpoint events_adds (fs : list Listener) (ev : gmap string (list Listener))
    : gmap string (list Listener) :=
  match fs with
  | [] => ev
  | f :: fs' => events_adds fs' (events_add f (l_name f) ev)
  end.

Fixpoint events_removes (fs : list Listener)
    (ev : gmap string (list Listener)) : gmap string (list Listener) :=
  match fs with
  | [] => ev
  | f :: fs' => events_removes fs' (events_remove f (l_name f) ev)
  end.

(** Two listener tables that hold, for every event name, the same listeners
    up to order; a name bound to no listener counts as absent. *)
Definition same_listeners (ev1 ev2 : gmap string (list Listener)) : Prop :=
  ∀ name, listeners_of name ev1 ≡ₚ listeners_of name ev2.

(** ** What belongs to an extension *)

(** The cogs of the table whose class lives in the module [lib], as the
    first loop of [unload_extension] meets them, and the commands and
    listeners those cogs brought. *)
Definition lib_cogs (lib : ModuleObj) (b : Bot) : list (string * Cog) :=
  filter (λ kc, getmodule_is (cog_module kc.2) lib b = true)
         (map_to_list (cogs b)).

Definition lib_cog_commands (lib : ModuleObj) (b : Bot) : list Command :=
  lib_cogs lib b ≫= (λ kc, omap member_command (cog_members kc.2)).

Definition lib_cog_listeners (lib : ModuleObj) (b : Bot) : list Listener :=
  lib_cogs lib b ≫= (λ kc, omap member_listener (cog_members kc.2)).

(** The commands of the registry that the module owns, as the second loop
    meets them. *)
Definition lib_commands (lib : ModuleObj) (r : gmap string Command)
    : list Command :=
  filter (λ c, command_module_is c lib = true) (map_to_list r).*2.

(** The specification's "entities attributable to the module": the cogs
    whose originating module it is, the top-level commands it owns or that
    one of those cogs brought, and the listeners that originate in it or
    that one of those cogs brought. *)
Definition cog_attributable (lib : ModuleObj) (b : Bot) (cog : Cog) : Prop :=
  getmodule_is (cog_module cog) lib b = true.

Definition command_attributable (lib : ModuleObj) (b : Bot) (c : Command)
    : Prop :=
  cmd_module c = Some (mod_id lib)
  ∨ ∃ kc m, kc ∈ lib_cogs lib b
            ∧ m ∈ omap member_command (cog_members kc.2)
            ∧ c = set_cmd_instance (Some (cog_class kc.2)) m.

Definition listener_attributable (lib : ModuleObj) (b : Bot) (f : Listener)
    : Prop :=
  getmodule_is (l_module f) lib b = true ∨ f ∈ lib_cog_listeners lib b.

#[global] Instance listener_attributable_dec lib b f :
  Decision (listener_attributable lib b f).
Proof. unfold listener_attributable. apply _. Defined.

(** A registry in which every command sits under its name and its aliases,
    and under nothing else: what [add_command] and [remove_command]
    maintain. *)
Definition registry_consistent (r : gmap string Command) : Prop :=
  ∀ k c, r !! k = Some c →
         k ∈ cmd_keys c ∧ ∀ k', k' ∈ cmd_keys c → r !! k' = Some c.

(** Every top-level command of a cog of [lib] is the command registered
    under its name, bound to that cog as [add_cog] leaves it. *)
Definition cog_commands_registered (lib : ModuleObj) (b : Bot) : Prop :=
  ∀ kc m, kc ∈ lib_cogs lib b →
          m ∈ omap member_command (cog_members kc.2) →
          commands b !! cmd_name m
          = Some (set_cmd_instance (Some (cog_class kc.2)) m).

(** The state [unload_extension(name)] is meant for: the module is cached
    under its name, the cogs it brought tear down without raising, the
    registry is consistent and still holds those cogs' commands. *)
Definition unload_ready (lib : ModuleObj) (name : string) (b : Bot) : Prop :=
  is_Some (sys_modules b !! name)
  ∧ (∀ kc, kc ∈ lib_cogs lib b → quiet_teardown kc.2 = true)
  ∧ registry_consistent (commands b)
  ∧ cog_commands_registered lib b.

(** ** The specification's words *)

(** The [pm_help] tri-state as the specification words it: [true] always
    delivers privately, [false] never, unset delivers privately only when
    the rendered help exceeds 1000 characters. *)
Definition pm_help_destination (pm : option bool) (message : Message)
    (pages : list string) : Destination :=
  match pm with
  | Some true => ToAuthor (author message)
  | Some false => ToChannel (channel message)
  | None =>
      if bool_decide (characters pages ≤ 1000)%nat
      then ToChannel (channel message)
      else ToAuthor (author message)
  end.

(** A text that reports a failure of the help command. *)
Definition is_failure_text (t : Text) : bool :=
  match t with Page _ => false | _ => true end.

(** [key] names no subcommand of [command]: the command is no group, or it
    is a group without that key. *)
Definition lacks_subcommand (command : Command) (key : string) : Prop :=
  match cmd_commands command with
  | None => True
  | Some subcommands => assoc_get key subcommands = None
  end.

(** ** Example data *)

(** The bot as [__init__] leaves it: empty tables, and the help command
    registered under its default name. *)
Definition help_command : Command := mkCommand "help" [] None None None None.

Definition Bot_init (pm : option bool) : Bot :=
  mkBot "bot" pm "No command called {} found."
        "Command {0.name} has no subcommands."
        ∅ {[ "help" := help_command ]} ∅ ∅ ∅ 0 [] [] [] [] [].

(** An extension [greeter] whose [setup] adds one cog, and a module without
    [setup]. *)
Definition on_ready_greeter : Listener :=
  mkListener "on_ready" "greeter" true 1.

Definition hello : Command :=
  mkCommand "hello" ["hi"] (Some 0) None None None.

Definition Greeter : Cog :=
  mkCog "Greeter" "greeter"
        [("hello", MCommand hello); ("on_ready", MFunc on_ready_greeter)]
        NoHook.

Definition example_source (name : string)
    : option (nat → option (list Action)) :=
  if decide (name = "greeter") then Some (λ _, Some [AddCog Greeter])
  else if decide (name = "missing_setup_module") then Some (λ _, None)
  else if decide (name = "other")
  then Some (λ id, Some [AddCommand
                           (mkCommand "hello" [] (Some id) None None None)])
  else None.

Definition loaded_bot : Bot :=
  state_of (load_extension example_source "greeter" (Bot_init (Some false))).

Definition greeter_lib : ModuleObj :=
  mkModule "greeter" 0 (Some [AddCog Greeter]).

(** The bot after [greeter] was loaded, its command [hello] taken out by
    hand, and an extension [other] loaded that registers a [hello] of its
    own. *)
Definition other_hello : Command :=
  mkCommand "hello" [] (Some 1) None None None.

Definition swapped_bot : Bot :=
  state_of (load_extension example_source "other"
              (state_of (remove_command "hello" loaded_bot))).

(** A group [parent] with one subcommand [child], in a bot of its own, and a
    message asking for help. *)
Definition child : Command :=
  mkCommand "child" [] None None (Some "parent") None.

Definition parent_group : Command :=
  mkCommand "parent" [] None None None (Some [("child", child)]).

Definition group_bot (pm : option bool) : Bot :=
  set_commands <["parent" := parent_group]> (Bot_init pm).

Definition help_message : Message :=
  mkMessage "!help parent missing" "alice" "general".

Definition help_ctx : Context :=
  mkContext "help" help_message (mkView "!help parent missing" 5) "!"
            (Some help_command).

Definition one_page : Context → HelpTarget → list string :=
  λ _ _, ["Shows this message."].

(** A tokenizer and an [invoke] for the examples: the word runs from the
    cursor to the next space, and invoking does nothing. *)
Fixpoint word_of (s : string) : string :=
  match s with
  | EmptyString => EmptyString
  | String a s' =>
      if Ascii.eqb a (Ascii.ascii_of_nat 32) then EmptyString
      else String a (word_of s')
  end.

Definition example_get_word (view : StringView) : string * StringView :=
  let w := word_of (remaining view) in
  (w, mkView (buffer view) (index view + String.length w)).

Definition example_invoke : Command → Context → M unit := λ _ _, mret tt.

(** The same text, once from a user and once from the bot itself. *)
Definition user_message : Message :=
  mkMessage "!nothing here" "alice" "general".

Definition own_message : Message :=
  mkMessage "!nothing here" "bot" "general".

(** Two listeners of one event: the first raises when awaited, the second
    returns; [on_error] returns. *)
Definition failing_listener : Listener := mkListener "on_ping" "pinger" true 7.
Definition fine_listener : Listener := mkListener "on_ping" "pinger" true 8.

Definition example_run_coro (l : Listener) (_ : list Arg) : Outcome :=
  if decide (l = failing_listener)
  then RaisesException (OtherError "boom") else Returns.

Definition example_on_error (_ : string) (_ : list Arg) : Outcome := Returns.

Definition ping_bot : Bot :=
  set_extra_events <["on_ping" := [failing_listener; fine_listener]]>
                   (Bot_init (Some false)).

(** ** Further functions of the file *)

(** [listen(name)]: the decorator registers the function and hands it
    back. *)
Definition listen (name : option string) (func : Listener) : M Listener :=
  add_listener func name ;; mret func.

Section Mention.

(** [server.me.mention] for the server of a message, when it has one, and
    [bot.user.mention]. *)
Variable server_mention : Message → option string.
Variable user_mention : Bot → string.

Definition when_mentioned (bot : Bot) (msg : Message) : string :=
  match server_mention msg with
  | Some mention => String.append mention " "
  | None => String.append (user_mention bot) " "
  end.

(** [when_mentioned_or] for given prefixes: the callable [inner]. *)
Definition when_mentioned_or (prefixes : list string) : PrefixSpec :=
  Callable (λ bot msg, PSeq (prefixes ++ [when_mentioned bot msg])).

End Mention.

(** The exceptions the [except AttributeError] of [remove_cog] catches. *)
Definition is_attribute_error (e : Exc) : bool :=
  match e with AttributeError _ => true | _ => false end.

(** A cog whose teardown hook raises, and a second collection of modules:
    [grumpy], which registers that cog, and [broken], whose [setup] fails on
    its second registration. *)
Definition Grumpy : Cog :=
  mkCog "Grumpy" "grumpy" [("on_ready", MFunc on_ready_greeter)]
        (HookRaises (OtherError "teardown")).

Definition more_source (name : string)
    : option (nat → option (list Action)) :=
  if decide (name = "grumpy") then Some (λ _, Some [AddCog Grumpy])
  else if decide (name = "broken")
  then Some (λ _, Some [AddCog Greeter; AddCommand help_command])
  else example_source name.

(** Every event name that is a key of the listener table of [b] is one of
    the table of [b']. *)
Definition keys_kept (b b' : Bot) : Prop :=
  ∀ k, is_Some (extra_events b !! k) → is_Some (extra_events b' !! k).

(** The help command's first choice of destination. *)
Definition help_destination (b : Bot) (ctx : Context) : Destination :=
  match pm_help b with
  | Some true => ToAuthor (author (ctx_message ctx))
  | _ => ToChannel (channel (ctx_message ctx))
  end.

(** Sending a list of addressed texts, one after the other. *)
Definition send_all (msgs : list (Destination * Text)) (b : Bot) : Bot :=
  foldl (λ b dt, send_message dt.1 dt.2 b) b msgs.

(** * Properties *)

(** ** The monad *)

Lemma bind_Ok {A B} (m : M A) (k : A → M B) b a b' :
  m b = Ok a b' → (m ≫= k) b = k a b'.
Proof. unfold mbind, M_bind, bind. by intros ->. Qed.


(** ** Cogs: what [remove_cog] returns *)

Lemma for_each_invariant {A} (P : Bot → Prop) (xs : list A) body :
  (∀ x b, x ∈ xs → P b → P (state_of (body x b))) →
  ∀ b, P b → P (state_of (for_each xs body b)).
Proof.
  induction xs as [|x xs IH]; intros Hbody b Hb; simpl; [done|].
  unfold mbind, M_bind, bind.
  pose proof (Hbody x b (list_elem_of_here _ _) Hb) as H1.
  destruct (body x b) as [[] b1|e b1]; simpl in *; [|done].
  apply IH; [|done]. intros y b' Hy. apply Hbody. by right.
Qed.

Lemma for_each_raises {A} (xs : list A) body b e b' :
  for_each xs body b = Raise e b' →
  ∃ x b0, x ∈ xs ∧ body x b0 = Raise e b'.
Proof.
  revert b. induction xs as [|x xs IH]; intros b; simpl; [done|].
  unfold mbind, M_bind, bind.
  destruct (body x b) as [[] b1|e1 b1] eqn:E.
  - intros H. destruct (IH _ H) as (y & b0 & Hy & Hr).
    exists y, b0. split; [by right | done].
  - intros [= <- <-]. exists x, b. split; [by left | done].
Qed.

Lemma remove_cog_eq name b :
  remove_cog name b =
  match cogs b !! name with
  | None => Ok None (set_cogs (delete name) b)
  | Some c =>
      match for_each (cog_members c) remove_member (set_cogs (delete name) b) with
      | Ok _ b1 =>
          match call_unload c b1 with
          | Ok _ b2 => Ok None b2
          | Raise e b2 => Raise e b2
          end
      | Raise e b1 => Raise e b1
      end
  end.
Proof.
  unfold remove_cog, gets, modify, mbind, M_bind, bind, mret, M_ret, ret.
  destruct (cogs b !! name); [|done].
  destruct (for_each _ _ _); [|done]. by destruct (call_unload _ _).
Qed.

Lemma remove_command_returns name b :
  ∃ r b', remove_command name b = Ok r b' ∧ cogs b' = cogs b.
Proof. unfold remove_command. eauto. Qed.

Lemma remove_member_returns nm b :
  quiet_member nm = true →
  ∃ b', remove_member nm b = Ok tt b' ∧ cogs b' = cogs b.
Proof.
  destruct nm as [n m]. unfold quiet_member, remove_member. simpl.
  intros Hq. destruct m as [c|f|]; simpl.
  - destruct (cmd_parent c); [by exists b|].
    destruct (remove_command_returns (cmd_name c) b) as (r & b2 & E & Hc).
    exists b2. by rewrite (bind_Ok _ _ _ _ _ E).
  - destruct (is_event_name n); [|by exists b].
    by eexists.
  - destruct (is_event_name n); [done | by exists b].
Qed.

Lemma remove_member_raises nm b e b' :
  remove_member nm b = Raise e b' → quiet_member nm = false.
Proof.
  destruct (quiet_member nm) eqn:Hq; [|done].
  destruct (remove_member_returns nm b Hq) as (b2 & E & _). congruence.
Qed.

Lemma call_unload_cogs c b :
  match call_unload c b with
  | Ok _ b' => cogs b' = cogs b
  | Raise _ _ => quiet_hook (cog_unload c) = false
  end.
Proof. unfold call_unload. by destruct (cog_unload c) as [| |[]]. Qed.


Lemma remove_member_cogs nm b : cogs (state_of (remove_member nm b)) = cogs b.
Proof.
  destruct nm as [n m]. unfold remove_member. simpl.
  destruct m as [c|f|]; simpl.
  - destruct (cmd_parent c); [done|].
    destruct (remove_command_returns (cmd_name c) b) as (r & b2 & E & Hc).
    by rewrite (bind_Ok _ _ _ _ _ E).
  - by destruct (is_event_name n).
  - by destruct (is_event_name n).
Qed.

(** C9. [remove_cog(name)] returns [None] both when no cog is registered
    under [name] and when one is found and removed: the removed cog is never
    handed back.  When the call returns, the key is gone from the cog table;
    the call fails to return only through the teardown of a cog it found (an
    event-named attribute without [__name__], or a hook raising something
    other than [AttributeError]). *)
Theorem remove_cog_returns_None (name : string) (b : Bot) :
  match remove_cog name b with
  | Ok r b' => r = None ∧ cogs b' !! name = None
  | Raise _ _ => ∃ c, cogs b !! name = Some c ∧ quiet_teardown c = false
  end.
Proof.
  rewrite remove_cog_eq.
  destruct (cogs b !! name) as [c|] eqn:Hc; simpl.
  2:{ split; [done|]. apply lookup_delete_eq. }
  pose proof (for_each_invariant
    (λ b', cogs b' = cogs (set_cogs (delete name) b))
    (cog_members c) remove_member) as Hinv.
  specialize (Hinv (λ x b0 _ H, eq_trans (remove_member_cogs x b0) H)
                   _ eq_refl).
  destruct (for_each _ _ _) as [[] b1|e b1] eqn:E; simpl in Hinv.
  - pose proof (call_unload_cogs c b1) as Hu.
    destruct (call_unload c b1) as [[] b2|e b2].
    + split; [done|]. rewrite Hu, Hinv. apply lookup_delete_eq.
    + exists c. split; [done|].
      unfold quiet_teardown. by rewrite Hu, andb_false_r.
  - exists c. split; [done|].
    apply for_each_raises in E as (nm & b0 & Hin & Hr).
    apply remove_member_raises in Hr.
    unfold quiet_teardown. apply andb_false_iff. left.
    apply not_true_iff_false. rewrite forallb_forall. intros Hall.
    apply list_elem_of_In, Hall in Hin. congruence.
Qed.

(** ** Extensions: loading *)

Lemma same_imports_refl b : same_imports b b.
Proof. by repeat split. Qed.

Lemma same_imports_trans b1 b2 b3 :
  same_imports b1 b2 → same_imports b2 b3 → same_imports b1 b3.
Proof. intros (?&?&?&?) (?&?&?&?). repeat split; congruence. Qed.

Lemma for_each_same_imports {A} (xs : list A) body :
  (∀ x b, same_imports b (state_of (body x b))) →
  ∀ b, same_imports b (state_of (for_each xs body b)).
Proof.
  intros Hbody b.
  apply (for_each_invariant (same_imports b)); [|apply same_imports_refl].
  intros x b0 _ H. eapply same_imports_trans; [done | apply Hbody].
Qed.

Lemma add_command_same_imports c b :
  same_imports b (state_of (add_command c b)).
Proof. unfold add_command. destruct (registry_add _ _); by repeat split. Qed.

Lemma remove_command_same_imports name b :
  same_imports b (state_of (remove_command name b)).
Proof. by repeat split. Qed.

Lemma add_listener_same_imports f name b :
  same_imports b (state_of (add_listener f name b)).
Proof. unfold add_listener. destruct (negb _); by repeat split. Qed.

Lemma remove_listener_same_imports f name b :
  same_imports b (state_of (remove_listener f name b)).
Proof. by repeat split. Qed.

Lemma bind_same_imports {A B} (m : M A) (k : A → M B) b :
  same_imports b (state_of (m b)) →
  (∀ a b', same_imports b' (state_of (k a b'))) →
  same_imports b (state_of ((m ≫= k) b)).
Proof.
  unfold mbind, M_bind, bind. intros Hm Hk.
  destruct (m b) as [a b1|e b1]; simpl in *; [|done].
  eapply same_imports_trans; [done | apply Hk].
Qed.

Lemma add_member_same_imports cog nm b :
  same_imports b (state_of (add_member cog nm b)).
Proof.
  unfold add_member. destruct nm as [n [c|f|]]; simpl.
  - destruct (cmd_parent c);
      [apply same_imports_refl | apply add_command_same_imports].
  - destruct (is_event_name n);
      [apply add_listener_same_imports | apply same_imports_refl].
  - destruct (is_event_name n); apply same_imports_refl.
Qed.

Lemma remove_member_same_imports nm b :
  same_imports b (state_of (remove_member nm b)).
Proof.
  unfold remove_member. destruct nm as [n [c|f|]]; simpl.
  - destruct (cmd_parent c); [apply same_imports_refl|].
    apply bind_same_imports; [apply remove_command_same_imports|].
    intros. apply same_imports_refl.
  - destruct (is_event_name n);
      [apply remove_listener_same_imports | apply same_imports_refl].
  - destruct (is_event_name n); apply same_imports_refl.
Qed.

Lemma add_cog_same_imports cog b :
  same_imports b (state_of (add_cog cog b)).
Proof.
  unfold add_cog. apply bind_same_imports; [by repeat split|].
  intros _ b'. apply for_each_same_imports. apply add_member_same_imports.
Qed.

Lemma call_unload_same_imports c b :
  same_imports b (state_of (call_unload c b)).
Proof. unfold call_unload. destruct (cog_unload c) as [| |[]]; by repeat split. Qed.

Lemma remove_cog_same_imports name b :
  same_imports b (state_of (remove_cog name b)).
Proof.
  rewrite remove_cog_eq. destruct (cogs b !! name) as [c|]; [|by repeat split].
  pose proof (for_each_same_imports (cog_members c) remove_member
                remove_member_same_imports (set_cogs (delete name) b)) as H1.
  destruct (for_each _ _ _) as [[] b1|e b1]; simpl in *; [|done].
  pose proof (call_unload_same_imports c b1) as H2.
  destruct (call_unload c b1) as [[] b2|e b2]; simpl in *;
    (eapply same_imports_trans; [|done]);
    (eapply same_imports_trans; [|done]); by repeat split.
Qed.

Lemma run_action_same_imports a b :
  same_imports b (state_of (run_action a b)).
Proof.
  destruct a; simpl;
    [apply add_cog_same_imports | apply add_command_same_imports
    | apply add_listener_same_imports].
Qed.

Lemma load_extension_eq source name b :
  load_extension source name b =
  match extensions b !! name with
  | Some _ => Ok tt b
  | None =>
      match import_module source name b with
      | Ok lib b1 =>
          match mod_setup lib with
          | None =>
              Raise (ClientException
                       "extension does not have a setup function") b1
          | Some setup =>
              match for_each setup run_action b1 with
              | Ok _ b2 => Ok tt (set_extensions <[name := lib]> b2)
              | Raise e b2 => Raise e b2
              end
          end
      | Raise e b1 => Raise e b1
      end
  end.
Proof.
  unfold load_extension, gets, modify, mbind, M_bind, bind, mthrow_exc.
  destruct (extensions b !! name); [done|].
  destruct (import_module _ _ _) as [lib b1|]; [|done].
  destruct (mod_setup lib); [|done]. by destruct (for_each _ _ _).
Qed.

Lemma import_module_cached source name b lib :
  sys_modules b !! name = Some lib → import_module source name b = Ok lib b.
Proof. unfold import_module. by intros ->. Qed.

Lemma import_module_caches source name b lib b1 :
  import_module source name b = Ok lib b1 →
  sys_modules b1 !! name = Some lib ∧ extensions b1 = extensions b.
Proof.
  unfold import_module. destruct (sys_modules b !! name) eqn:E.
  - intros [= <- <-]. done.
  - destruct (source name); [|done]. intros [= <- <-]. simpl.
    split; [apply lookup_insert_eq | done].
Qed.

(** C7. [load_extension(name)] does nothing when [name] is already in the
    load table.  Otherwise, when the imported module has no [setup]
    attribute, the call raises the configuration error to its caller and
    [name] is not recorded in the load table. *)
Theorem load_extension_requires_setup
    (source : string → option (nat → option (list Action)))
    (name : string) (b : Bot) :
  (is_Some (extensions b !! name) → load_extension source name b = Ok tt b)
  ∧ (∀ lib b1,
       extensions b !! name = None →
       import_module source name b = Ok lib b1 →
       mod_setup lib = None →
       load_extension source name b =
         Raise (ClientException "extension does not have a setup function")
               b1
       ∧ extensions b1 = extensions b
       ∧ extensions b1 !! name = None).
Proof.
  rewrite load_extension_eq. split.
  - intros [lib ->]. done.
  - intros lib b1 Hn Hi Hs. rewrite Hn, Hi, Hs.
    apply import_module_caches in Hi as [_ He].
    split; [done|]. split; [done | by rewrite He].
Qed.

Lemma load_extension_requires_setup_witness :
  load_extension example_source "greeter" loaded_bot = Ok tt loaded_bot
  ∧ ∃ b1,
      load_extension example_source "missing_setup_module" loaded_bot =
        Raise (ClientException "extension does not have a setup function") b1
      ∧ extensions b1 !! "missing_setup_module" = None.
Proof.
  split.
  - apply (proj1 (load_extension_requires_setup
                    example_source "greeter" loaded_bot)).
    vm_compute. eauto.
  - eexists.
    edestruct (proj2 (load_extension_requires_setup
                        example_source "missing_setup_module" loaded_bot))
      as (H1 & H2 & H3); [ | | | split; [exact H1 | exact H3]].
    + vm_compute; reflexivity.
    + vm_compute; reflexivity.
    + reflexivity.
Defined.

(** ** Extensions: the module cache *)

Lemma unload_cog_same_imports lib kc b :
  same_imports b (state_of (unload_cog lib kc b)).
Proof.
  unfold unload_cog. apply bind_same_imports; [apply same_imports_refl|].
  intros [] b'; [|apply same_imports_refl].
  apply bind_same_imports; [apply remove_cog_same_imports|].
  intros. apply same_imports_refl.
Qed.

Lemma unload_command_same_imports lib kc b :
  same_imports b (state_of (unload_command lib kc b)).
Proof.
  unfold unload_command.
  destruct (command_module_is _ _); [|apply same_imports_refl].
  apply bind_same_imports; [apply remove_command_same_imports|].
  intros. apply same_imports_refl.
Qed.

Lemma unload_listeners_same_imports lib b :
  same_imports b (state_of (unload_listeners lib b)).
Proof. by repeat split. Qed.

Lemma unload_extension_not_loaded name b :
  extensions b !! name = None → unload_extension name b = Ok tt b.
Proof.
  intros H. unfold unload_extension, gets, mbind, M_bind, bind. by rewrite H.
Qed.

Lemma unload_extension_eq name b :
  unload_extension name b =
  match extensions b !! name with
  | None => Ok tt b
  | Some lib =>
      match unload_phases lib b with
      | Ok _ b' => evict name b'
      | Raise e b' => Raise e b'
      end
  end.
Proof.
  unfold unload_extension, gets. unfold mbind at 1, M_bind at 1, bind at 1.
  destruct (extensions b !! name) as [lib|]; [|done].
  unfold mbind at 1, M_bind at 1, bind at 1.
  by destruct (unload_phases lib b) as [[] b1|].
Qed.

Lemma unload_cogs_same_imports lib b :
  same_imports b (state_of (unload_cogs lib b)).
Proof.
  unfold unload_cogs.
  apply bind_same_imports; [apply same_imports_refl|]. intros l1 b1.
  apply for_each_same_imports. apply unload_cog_same_imports.
Qed.

Lemma unload_commands_same_imports lib b :
  same_imports b (state_of (unload_commands lib b)).
Proof.
  unfold unload_commands.
  apply bind_same_imports; [apply same_imports_refl|]. intros l1 b1.
  apply for_each_same_imports. apply unload_command_same_imports.
Qed.

Lemma unload_phases_same_imports lib b :
  same_imports b (state_of (unload_phases lib b)).
Proof.
  unfold unload_phases.
  apply bind_same_imports; [apply unload_cogs_same_imports|]. intros _ b1.
  apply bind_same_imports; [apply unload_commands_same_imports|].
  intros _ b2. apply unload_listeners_same_imports.
Qed.

Lemma evict_sys_modules name b :
  sys_modules (state_of (evict name b)) = delete name (sys_modules b).
Proof.
  unfold evict, modify, gets, mbind, M_bind, bind, mthrow_exc. simpl.
  destruct (sys_modules b !! name) eqn:E; simpl; [done|].
  by rewrite delete_id.
Qed.

(** [unload_extension] takes from the module cache at most the name it is
    given, and only when that name is in the load table. *)
Lemma unload_extension_sys_modules name b n :
  sys_modules (state_of (unload_extension name b)) !! n = sys_modules b !! n
  ∨ (n = name ∧ is_Some (extensions b !! name)).
Proof.
  rewrite unload_extension_eq.
  destruct (extensions b !! name) as [lib|] eqn:El; [|by left].
  pose proof (unload_phases_same_imports lib b) as (Hs & _).
  destruct (unload_phases lib b) as [[] b1|e b1]; simpl in *.
  - rewrite evict_sys_modules, Hs.
    destruct (decide (n = name)) as [->|Hne]; [right; eauto|].
    left. by rewrite lookup_delete_ne.
  - left. by rewrite Hs.
Qed.

(** [load_extension] never takes a module out of the cache. *)
Lemma load_extension_sys_modules source name b n :
  is_Some (sys_modules b !! n) →
  is_Some (sys_modules (state_of (load_extension source name b)) !! n).
Proof.
  intros Hn. rewrite load_extension_eq.
  destruct (extensions b !! name); [done|].
  assert (is_Some (sys_modules (state_of (import_module source name b)) !! n))
    as Hi.
  { unfold import_module. destruct (sys_modules b !! name) eqn:E; [done|].
    destruct (source name); [|done]. simpl.
    destruct (decide (name = n)) as [->|Hne].
    - rewrite lookup_insert_eq. eauto.
    - by rewrite lookup_insert_ne. }
  destruct (import_module source name b) as [lib b1|e b1]; simpl in *; [|done].
  destruct (mod_setup lib) as [setup|]; [|done].
  pose proof (for_each_same_imports setup run_action
                run_action_same_imports b1) as (Hs & _).
  destruct (for_each setup run_action b1) as [[] b2|e b2]; simpl in *;
    by rewrite Hs.
Qed.

(** A name enters the load table only through a [load_extension] that
    returns. *)
Lemma load_extension_extensions source name b n :
  is_Some (extensions (state_of (load_extension source name b)) !! n) →
  is_Some (extensions b !! n)
  ∨ (n = name ∧ ∃ b', load_extension source name b = Ok tt b').
Proof.
  rewrite load_extension_eq.
  destruct (extensions b !! name) eqn:El; [by left|].
  destruct (import_module source name b) as [lib b1|e b1] eqn:Ei.
  2:{ unfold import_module in Ei. destruct (sys_modules b !! name); [done|].
      destruct (source name); [done|]. injection Ei as <- <-. by left. }
  apply import_module_caches in Ei as [_ He].
  destruct (mod_setup lib) as [setup|]; [|simpl; rewrite He; by left].
  pose proof (for_each_same_imports setup run_action
                run_action_same_imports b1) as (_ & He2 & _).
  destruct (for_each setup run_action b1) as [[] b2|e b2]; simpl in *.
  - destruct (decide (name = n)) as [->|Hne].
    + intros _. right. split; [done|]. by eexists.
    + rewrite lookup_insert_ne by done. rewrite He2, He. by left.
  - rewrite He2, He. by left.
Qed.

(** C10. When [load_extension(name)] raises for want of a [setup] entry
    point, the load table is as before, but the module is left in the module
    cache: a later [load_extension(name)] finds it there and runs no
    top-level code again, and [unload_extension(name)], the name not being
    loaded, does nothing.  Nothing but [unload_extension] of a loaded name
    takes a module out of the cache, and a name is loaded only through a
    [load_extension] that returned. *)
Theorem failed_load_stays_cached
    (source : string → option (nat → option (list Action)))
    (name : string) (b : Bot) (lib : ModuleObj) (b1 : Bot) :
  extensions b !! name = None →
  import_module source name b = Ok lib b1 →
  mod_setup lib = None →
  load_extension source name b =
    Raise (ClientException "extension does not have a setup function") b1
  ∧ extensions b1 = extensions b
  ∧ sys_modules b1 !! name = Some lib
  ∧ load_extension source name b1 =
      Raise (ClientException "extension does not have a setup function") b1
  ∧ executed (state_of (load_extension source name b1)) = executed b1
  ∧ unload_extension name b1 = Ok tt b1
  ∧ (∀ b' name' n,
       is_Some (sys_modules b' !! n) →
       is_Some (sys_modules (state_of (load_extension source name' b')) !! n)
       ∧ (sys_modules (state_of (unload_extension name' b')) !! n = None →
          n = name' ∧ is_Some (extensions b' !! name')))
  ∧ (∀ b' name' n,
       is_Some (extensions (state_of (load_extension source name' b')) !! n) →
       is_Some (extensions b' !! n)
       ∨ (n = name' ∧ ∃ b'', load_extension source name' b' = Ok tt b'')).
Proof.
  intros Hn Hi Hs.
  destruct (import_module_caches _ _ _ _ _ Hi) as [Hc He].
  assert (load_extension source name b1 =
    Raise (ClientException "extension does not have a setup function") b1)
    as H2.
  { rewrite load_extension_eq, He, Hn.
    by rewrite (import_module_cached _ _ _ _ Hc), Hs. }
  split; [by rewrite load_extension_eq, Hn, Hi, Hs|].
  split; [done|]. split; [done|]. split; [done|].
  split; [by rewrite H2|].
  split; [apply unload_extension_not_loaded; by rewrite He|].
  split; [|intros b' name' n; apply load_extension_extensions].
  intros b' name' n Hin. split; [by apply load_extension_sys_modules|].
  intros Hout.
  destruct (unload_extension_sys_modules name' b' n) as [Heq|]; [|done].
  rewrite Hout in Heq. rewrite <- Heq in Hin. by destruct Hin.
Qed.

Lemma failed_load_stays_cached_witness :
  ∃ b1,
    load_extension example_source "missing_setup_module" loaded_bot =
      Raise (ClientException "extension does not have a setup function") b1
    ∧ executed b1 = ["greeter"; "missing_setup_module"]
    ∧ is_Some (sys_modules b1 !! "missing_setup_module")
    ∧ executed (state_of (load_extension example_source
                            "missing_setup_module" b1)) = executed b1
    ∧ unload_extension "missing_setup_module" b1 = Ok tt b1.
Proof.
  eexists.
  edestruct (failed_load_stays_cached example_source "missing_setup_module"
               loaded_bot) as (H1 & H2 & H3 & H4 & H5 & H6 & H7 & H8).
  - vm_compute; reflexivity.
  - vm_compute; reflexivity.
  - reflexivity.
  - split; [exact H1|]. split; [vm_compute; reflexivity|].
    split; [rewrite H3; eauto|]. split; [exact H5 | exact H6].
Defined.

(** ** The help command *)

Ltac mred :=
  unfold mbind, M_bind, bind, mret, M_ret, ret, gets, modify, mthrow_exc;
  simpl.

Lemma help_walk_cases d command keys b :
  (∃ c, help_walk d command keys b = Ok (Some c) b)
  ∨ (∃ t, is_failure_text t = true
          ∧ help_walk d command keys b = Ok None (send_message d t b)).
Proof.
  revert command. induction keys as [|key keys IH]; intros command; simpl.
  - left. by eexists.
  - destruct (cmd_commands command) as [subs|].
    + destruct (assoc_get key subs) as [c'|]; [apply IH|].
      right. by eexists (NotFoundText _ _).
    + right. by eexists (NoSubcommandsText _ _ _).
Qed.

Lemma help_pages_chain fmt ctx name key keys d b :
  help_pages fmt ctx (name :: key :: keys) d b =
  match commands b !! name with
  | None =>
      Ok None (send_message d (NotFoundText (command_not_found b) name) b)
  | Some command =>
      match help_walk d command (key :: keys) b with
      | Ok found b' => Ok ((λ c, fmt ctx (HelpCommand c)) <$> found) b'
      | Raise e b' => Raise e b'
      end
  end.
Proof.
  unfold help_pages, mbind, M_bind, bind, gets, id.
  by destruct (commands b !! name).
Qed.

Lemma help_pages_cases fmt ctx cmds d b :
  (∃ target, help_pages fmt ctx cmds d b = Ok (Some (fmt ctx target)) b)
  ∨ (∃ t, is_failure_text t = true
          ∧ help_pages fmt ctx cmds d b = Ok None (send_message d t b)).
Proof.
  destruct cmds as [|name [|key keys]].
  - left. by exists HelpBot.
  - unfold help_pages. mred.
    destruct (cogs b !! name) as [c|]; [left; by exists (HelpCog c)|].
    destruct (commands b !! name) as [c|]; [left; by exists (HelpCommand c)|].
    right. by eexists (NotFoundText _ _).
  - rewrite help_pages_chain.
    destruct (commands b !! name) as [command|].
    2:{ right. by eexists (NotFoundText _ _). }
    destruct (help_walk_cases d command (key :: keys) b)
      as [[c ->]|(t & Ht & ->)].
    + left. by exists (HelpCommand c).
    + right. by exists t.
Qed.

Lemma send_pages_sent d pages b :
  ∃ b', for_each pages (λ page, modify (send_message d (Page page))) b
        = Ok tt b'
      ∧ sent b' = sent b ++ map (λ p, (d, Page p)) pages.
Proof.
  revert b. induction pages as [|p pages IH]; intros b; simpl.
  - exists b. by rewrite app_nil_r.
  - unfold mbind, M_bind, bind. unfold modify at 1.
    destruct (IH (send_message d (Page p) b)) as (b' & -> & Hs).
    exists b'. split; [done|]. rewrite Hs. simpl. by rewrite <- app_assoc.
Qed.

Lemma help_command_eq fmt ctx cmds b :
  _default_help_command fmt ctx cmds b =
  let destination :=
    match pm_help b with
    | Some true => ToAuthor (author (ctx_message ctx))
    | _ => ToChannel (channel (ctx_message ctx))
    end in
  match help_pages fmt ctx cmds destination b with
  | Ok None b1 => Ok tt b1
  | Ok (Some pages) b1 =>
      for_each pages (λ page,
        modify (send_message
                  (match pm_help b with
                   | None =>
                       if bool_decide (1000 < characters pages)%nat
                       then ToAuthor (author (ctx_message ctx))
                       else destination
                   | Some _ => destination
                   end) (Page page))) b1
  | Raise e b1 => Raise e b1
  end.
Proof.
  unfold _default_help_command, gets.
  unfold mbind at 1, M_bind at 1, bind at 1.
  unfold mbind at 1, M_bind at 1, bind at 1. cbv beta zeta delta [id].
  by destruct (help_pages _ _ _ _ _) as [[pages|] b1|].
Qed.

(** The destination the code arrives at is the one the tri-state names. *)
Lemma destination_eq pm message pages :
  match pm with
  | None =>
      if bool_decide (1000 < characters pages)%nat
      then ToAuthor (author message)
      else match pm with
           | Some true => ToAuthor (author message)
           | _ => ToChannel (channel message)
           end
  | Some _ =>
      match pm with
      | Some true => ToAuthor (author message)
      | _ => ToChannel (channel message)
      end
  end = pm_help_destination pm message pages.
Proof.
  unfold pm_help_destination. destruct pm as [[]|]; try done.
  repeat case_bool_decide; try done; lia.
Qed.


Lemma pm_help_destination_cases message pages :
  pm_help_destination (Some true) message pages = ToAuthor (author message)
  ∧ pm_help_destination (Some false) message pages
    = ToChannel (channel message)
  ∧ ((characters pages ≤ 1000)%nat →
     pm_help_destination None message pages = ToChannel (channel message))
  ∧ ((1000 < characters pages)%nat →
     pm_help_destination None message pages = ToAuthor (author message)).
Proof.
  unfold pm_help_destination. repeat split; intros; case_bool_decide; done || lia.
Qed.

(** C1, as amended.  When the help command walks [t0; t1; ...], [t0]
    resolves to an existing command and that command has no subcommand [t1],
    one text is sent and the command returns: nothing is invoked, no page is
    rendered.  The text is the [command_has_no_subcommands] format applied
    to the command and [t1] when the command is no group at all, and the
    [command_not_found] format applied to [t1] when it is a group without
    that key. *)
Theorem help_walk_reports_missing_subcommand
    (format_help_for : Context → HelpTarget → list string)
    (ctx : Context) (t0 t1 : string) (rest : list string) (b : Bot)
    (command : Command) :
  commands b !! t0 = Some command →
  lacks_subcommand command t1 →
  _default_help_command format_help_for ctx (t0 :: t1 :: rest) b =
  Ok tt (send_message
           (match pm_help b with
            | Some true => ToAuthor (author (ctx_message ctx))
            | _ => ToChannel (channel (ctx_message ctx))
            end)
           (match cmd_commands command with
            | None =>
                NoSubcommandsText (command_has_no_subcommands b) command t1
            | Some _ => NotFoundText (command_not_found b) t1
            end) b).
Proof.
  intros Hc Hl. rewrite help_command_eq. cbv zeta.
  rewrite help_pages_chain, Hc. simpl.
  unfold lacks_subcommand in Hl. destruct (cmd_commands command) as [subs|].
  - by rewrite Hl.
  - done.
Qed.

Lemma help_walk_reports_missing_subcommand_witness :
  _default_help_command one_page help_ctx ["help"; "missing"]
                        (group_bot None)
  = Ok tt (send_message (ToChannel "general")
             (NoSubcommandsText "Command {0.name} has no subcommands."
                                help_command "missing")
             (group_bot None))
  ∧ _default_help_command one_page help_ctx ["parent"; "missing"; "deeper"]
                          (group_bot (Some true))
    = Ok tt (send_message (ToAuthor "alice")
               (NotFoundText "No command called {} found." "missing")
               (group_bot (Some true))).
Proof.
  split.
  - apply (help_walk_reports_missing_subcommand one_page help_ctx
             "help" "missing" [] (group_bot None) help_command).
    + vm_compute; reflexivity.
    + exact I.
  - apply (help_walk_reports_missing_subcommand one_page help_ctx
             "parent" "missing" ["deeper"] (group_bot (Some true))
             parent_group).
    + vm_compute; reflexivity.
    + vm_compute; reflexivity.
Defined.

(** C1 as stated fails on a group: [parent] exists, has no subcommand
    [missing], and the failure is reported through [command_not_found]. *)
Lemma help_walk_group_reports_not_found :
  commands (group_bot (Some false)) !! "parent" = Some parent_group
  ∧ lacks_subcommand parent_group "missing"
  ∧ sent (state_of (_default_help_command one_page help_ctx
                      ["parent"; "missing"] (group_bot (Some false))))
    = [(ToChannel "general",
        NotFoundText "No command called {} found." "missing")].
Proof. vm_compute. done. Qed.

(** ** Prefix resolution *)

Lemma substring_all (s : string) : String.substring 0 (String.length s) s = s.
Proof. induction s as [|a s IH]; simpl; [done | by rewrite IH]. Qed.

Lemma remaining_start (text : string) : remaining (mkView text 0) = text.
Proof. unfold remaining. simpl. rewrite Nat.sub_0_r. apply substring_all. Qed.

Lemma skip_string_start (p text : string) :
  skip_string p (mkView text 0) =
  if String.prefix p text
  then (true, mkView text (String.length p))
  else (false, mkView text 0).
Proof. unfold skip_string. by rewrite remaining_start. Qed.

(** [find] over [skip_string] from the start of the text: the first listed
    prefix of the text, with everything before it in the list failing. *)
Lemma find_skip_string_first (ps : list string) (text : string) :
  match find skip_string ps (mkView text 0) with
  | (Some p, view') =>
      ∃ before after,
        ps = before ++ p :: after
        ∧ Forall (λ q, String.prefix q text = false) before
        ∧ String.prefix p text = true
        ∧ view' = mkView text (String.length p)
  | (None, view') =>
      Forall (λ q, String.prefix q text = false) ps ∧ view' = mkView text 0
  end.
Proof.
  induction ps as [|q ps IH]; simpl; [done|].
  rewrite skip_string_start. destruct (String.prefix q text) eqn:Hq; simpl.
  - exists [], ps. by repeat split.
  - destruct (find skip_string ps (mkView text 0)) as [[p|] view'].
    + destruct IH as (before & after & -> & Hb & Hp & ->).
      exists (q :: before), after. repeat split; [|done]. by constructor.
    + destruct IH as [Hall ->]. split; [by constructor | done].
Qed.

Lemma dispatch_returns ev args b :
  ∃ b', dispatch ev args b = Ok tt b'
        ∧ emitted b' = emitted b ++ [(ev, args)]
        ∧ scheduled b' =
            scheduled b ++
            map (λ event, mkTask event ev args)
                (default [] (extra_events b !! String.append "on_" ev))
        ∧ commands b' = commands b ∧ cogs b' = cogs b
        ∧ extra_events b' = extra_events b ∧ sent b' = sent b.
Proof.
  unfold dispatch, client_dispatch, gets.
  unfold mbind at 1, M_bind at 1, bind at 1. unfold modify at 1.
  unfold mbind at 1, M_bind at 1, bind at 1. simpl.
  destruct (extra_events b !! String.append "on_" ev) as [events|]; simpl.
  2:{ eexists. split; [done|]. simpl. by rewrite app_nil_r. }
  assert (∀ b1, ∃ b', for_each events (λ event,
            modify (create_task (mkTask event ev args))) b1 = Ok tt b'
          ∧ emitted b' = emitted b1
          ∧ scheduled b' =
              scheduled b1 ++ map (λ event, mkTask event ev args) events
          ∧ commands b' = commands b1 ∧ cogs b' = cogs b1
          ∧ extra_events b' = extra_events b1 ∧ sent b' = sent b1) as H.
  { induction events as [|e events IH]; intros b1; simpl.
    - exists b1. by rewrite app_nil_r.
    - unfold mbind, M_bind, bind. unfold modify at 1.
      destruct (IH (create_task (mkTask e ev args) b1))
        as (b' & -> & ? & Hs & ? & ? & ? & ?).
      exists b'. repeat split; try done. rewrite Hs. simpl.
      by rewrite <- app_assoc. }
  destruct (H (emit ev args b)) as (b' & -> & He & Hs & ? & ? & ? & ?).
  exists b'. by rewrite He, Hs.
Qed.

Lemma process_commands_eq command_prefix get_word invoke message b :
  process_commands command_prefix get_word invoke message b =
  if bool_decide (author message = user b) then Ok tt b else
  match _get_prefix command_prefix message b with
  | Ok prefix b1 =>
      match match_prefix prefix (mkView (content message) 0) with
      | None => Ok tt b1
      | Some (invoked_prefix, view) =>
          let w := get_word view in
          match commands b1 !! w.1 with
          | Some command =>
              (dispatch "command"
                 [ACommand command;
                  AContext (mkContext w.1 message w.2 invoked_prefix None)] ;;
               invoke command
                 (mkContext w.1 message w.2 invoked_prefix (Some command)) ;;
               dispatch "command_completion"
                 [ACommand command;
                  AContext (mkContext w.1 message w.2 invoked_prefix
                                      (Some command))]) b1
          | None =>
              dispatch "command_error"
                [AExc (CommandNotFound w.1);
                 AContext (mkContext w.1 message w.2 invoked_prefix None)] b1
          end
      end
  | Raise e b1 => Raise e b1
  end.
Proof.
  unfold process_commands, gets.
  unfold mbind at 1, M_bind at 1, bind at 1. cbv beta delta [id].
  case_bool_decide; [done|].
  unfold mbind at 1, M_bind at 1, bind at 1.
  destruct (_get_prefix _ _ _) as [prefix b1|]; [|done].
  destruct (match_prefix _ _) as [[invoked_prefix view]|]; [|done].
  cbv zeta. unfold mbind at 1, M_bind at 1, bind at 1.
  by destruct (commands b1 !! _).
Qed.

(** C6.  For every ordered prefix list and every message text, the prefix
    step selects the first listed prefix that is a literal prefix of the
    text, everything listed before it failing to match, and leaves the view
    just behind it.  When no listed prefix matches, [process_commands]
    returns with the bot as it was: the message is not treated as a command
    and no event is emitted. *)
Theorem first_listed_prefix_wins (ps : list string) (text : string) :
  match match_prefix (PSeq ps) (mkView text 0) with
  | Some (p, view') =>
      ∃ before after,
        ps = before ++ p :: after
        ∧ Forall (λ q, String.prefix q text = false) before
        ∧ String.prefix p text = true
        ∧ view' = mkView text (String.length p)
  | None =>
      Forall (λ q, String.prefix q text = false) ps
      ∧ ∀ command_prefix get_word invoke message b,
          content message = text →
          _get_prefix command_prefix message b = Ok (PSeq ps) b →
          process_commands command_prefix get_word invoke message b = Ok tt b
  end.
Proof.
  pose proof (find_skip_string_first ps text) as H. unfold match_prefix.
  destruct (find skip_string ps (mkView text 0)) as [[p|] view']; simpl.
  - done.
  - destruct H as [Hall ->]. split; [done|].
    intros command_prefix get_word invoke message b <- Hp.
    rewrite process_commands_eq. case_bool_decide; [done|].
    rewrite Hp. unfold match_prefix.
    destruct (find skip_string ps _) as [[p|] v] eqn:E; [|done].
    pose proof (find_skip_string_first ps (content message)) as H'.
    rewrite E in H'. destruct H' as (before & after & -> & _ & Hp' & _).
    apply Forall_app in Hall as [_ Hall]. apply Forall_cons in Hall as [Hq _].
    congruence.
Qed.

(** C5, as amended.  For every message that is not from the bot itself,
    whose prefix matches and whose invoker is no registered command,
    [process_commands] returns normally, having emitted one [command_error]
    event that carries [CommandNotFound] for the invoker. *)
Theorem unresolved_invocation_emits_command_error
    (command_prefix : PrefixSpec)
    (get_word : StringView → string * StringView)
    (invoke : Command → Context → M unit)
    (message : Message) (b : Bot)
    (prefix : PrefixValue) (invoked_prefix : string) (view : StringView) :
  author message ≠ user b →
  _get_prefix command_prefix message b = Ok prefix b →
  match_prefix prefix (mkView (content message) 0)
    = Some (invoked_prefix, view) →
  commands b !! (get_word view).1 = None →
  ∃ b',
    process_commands command_prefix get_word invoke message b = Ok tt b'
    ∧ emitted b' =
        emitted b ++
        [("command_error",
          [AExc (CommandNotFound (get_word view).1);
           AContext (mkContext (get_word view).1 message (get_word view).2
                               invoked_prefix None)])]
    ∧ commands b' = commands b ∧ sent b' = sent b.
Proof.
  intros Ha Hp Hm Hc. rewrite process_commands_eq.
  case_bool_decide; [done|]. rewrite Hp, Hm. cbv zeta. rewrite Hc.
  destruct (dispatch_returns "command_error"
              [AExc (CommandNotFound (get_word view).1);
               AContext (mkContext (get_word view).1 message
                           (get_word view).2 invoked_prefix None)] b)
    as (b' & E & He & _ & Hcm & _ & _ & Hs).
  by exists b'.
Qed.

Lemma unresolved_invocation_emits_command_error_witness :
  ∃ b',
    process_commands (Static (PSeq ["?"; "!"])) example_get_word
                     example_invoke user_message loaded_bot = Ok tt b'
    ∧ emitted b' =
        [("command_error",
          [AExc (CommandNotFound "nothing");
           AContext (mkContext "nothing" user_message
                               (mkView "!nothing here" 8) "!" None)])].
Proof.
  destruct (unresolved_invocation_emits_command_error
              (Static (PSeq ["?"; "!"])) example_get_word example_invoke
              user_message loaded_bot (PSeq ["?"; "!"]) "!"
              (mkView "!nothing here" 1))
    as (b' & E & He & _).
  - vm_compute. discriminate.
  - reflexivity.
  - vm_compute; reflexivity.
  - vm_compute; reflexivity.
  - exists b'. split; [exact E | exact He].
Defined.

(** C5 as stated fails on a message of the bot's own: the prefix matches,
    the invoker is no registered command, and nothing is emitted. *)
Lemma own_message_emits_nothing :
  match_prefix (PStr "!") (mkView (content own_message) 0)
    = Some ("!", mkView "!nothing here" 1)
  ∧ commands loaded_bot !! (example_get_word (mkView "!nothing here" 1)).1
    = None
  ∧ process_commands (Static (PStr "!")) example_get_word example_invoke
                     own_message loaded_bot = Ok tt loaded_bot
  ∧ emitted loaded_bot = [].
Proof. vm_compute. done. Qed.

Lemma first_listed_prefix_wins_witness :
  (∃ p view',
     match_prefix (PSeq ["?"; "!"; "!!"]) (mkView "!!foo bar" 0)
       = Some (p, view')
     ∧ String.prefix p "!!foo bar" = true
     ∧ view' = mkView "!!foo bar" (String.length p))
  ∧ process_commands (Static (PSeq ["?"; "!"])) example_get_word
                     example_invoke
                     (mkMessage "hello there" "alice" "general") loaded_bot
    = Ok tt loaded_bot.
Proof.
  split.
  - pose proof (first_listed_prefix_wins ["?"; "!"; "!!"] "!!foo bar") as H.
    destruct (match_prefix (PSeq ["?"; "!"; "!!"]) (mkView "!!foo bar" 0))
      as [[p view']|] eqn:E.
    + destruct H as (before & after & _ & _ & Hp & Hv).
      exists p, view'. split; [reflexivity|]. split; [exact Hp | exact Hv].
    + vm_compute in E. discriminate E.
  - pose proof (first_listed_prefix_wins ["?"; "!"] "hello there") as H.
    destruct (match_prefix (PSeq ["?"; "!"]) (mkView "hello there" 0))
      as [[p view']|] eqn:E.
    + vm_compute in E. discriminate E.
    + destruct H as [_ H]. apply H; reflexivity.
Defined.

(** ** Listener dispatch *)

(** C4.  [dispatch] returns, whatever the listeners do when they run: it
    records the emission and schedules one wrapped task per listener
    registered for the event, in order.  A scheduled task swallows a
    cancellation of its listener; any [Exception] the listener raises makes
    exactly one call of [on_error] with the event name and the arguments,
    whose outcome (a cancellation swallowed again) is the task's; a listener
    that returns makes no call.  The result of a task depends on its own
    listener only, so a raising listener keeps no sibling from being
    scheduled and completing. *)
Theorem raising_listener_is_isolated
    (run_coro : Listener → list Arg → Outcome)
    (on_error : string → list Arg → Outcome)
    (event_name : string) (args : list Arg) (b : Bot) :
  ∃ b',
    dispatch event_name args b = Ok tt b'
    ∧ scheduled b' =
        scheduled b ++
        map (λ event, mkTask event event_name args)
            (default [] (extra_events b !! String.append "on_" event_name))
    ∧ ∀ event,
        let t := mkTask event event_name args in
        (run_coro event args = RaisesCancelled →
         run_task run_coro on_error t = ([], Returns))
        ∧ (∀ e, run_coro event args = RaisesException e →
             (run_task run_coro on_error t).1 = [(event_name, args)]
             ∧ (run_task run_coro on_error t).2 =
                 match on_error event_name args with
                 | RaisesCancelled => Returns
                 | o => o
                 end)
        ∧ (run_coro event args = Returns →
           run_task run_coro on_error t = ([], Returns)).
Proof.
  destruct (dispatch_returns event_name args b)
    as (b' & E & _ & Hs & _).
  exists b'. split; [done|]. split; [done|].
  intros event t. unfold run_task, _run_extra. simpl.
  split; [by intros ->|]. split; [|by intros ->].
  intros e ->. split; [done|]. by destruct (on_error event_name args).
Qed.

Lemma raising_listener_is_isolated_witness :
  ∃ b',
    dispatch "ping" [] ping_bot = Ok tt b'
    ∧ scheduled b' =
        [mkTask failing_listener "ping" []; mkTask fine_listener "ping" []]
    ∧ run_task example_run_coro example_on_error
               (mkTask failing_listener "ping" [])
      = ([("ping", [])], Returns)
    ∧ run_task example_run_coro example_on_error
               (mkTask fine_listener "ping" [])
      = ([], Returns).
Proof.
  destruct (raising_listener_is_isolated example_run_coro example_on_error
              "ping" [] ping_bot) as (b' & E & Hs & Hrun).
  exists b'. split; [exact E|]. split; [exact Hs|]. split.
  - destruct (Hrun failing_listener) as (_ & Hexc & _).
    destruct (Hexc (OtherError "boom") eq_refl) as [H1 H2].
    destruct (run_task example_run_coro example_on_error
                (mkTask failing_listener "ping" [])) as [calls outcome].
    simpl in H1, H2. rewrite H1, H2. reflexivity.
  - destruct (Hrun fine_listener) as (_ & _ & Hret).
    apply Hret. reflexivity.
Defined.

(** ** Cogs: adding and removing *)

(** *** The registry *)

Lemma lookup_foldr_delete {V} (ks : list string) (r : gmap string V) k :
  foldr delete r ks !! k = if decide (k ∈ ks) then None else r !! k.
Proof.
  induction ks as [|k' ks IH]; simpl.
  - destruct (decide (k ∈ [])) as [H|]; [by apply elem_of_nil in H | done].
  - destruct (decide (k' = k)) as [->|Hne].
    + rewrite lookup_delete_eq. destruct (decide (k ∈ k :: ks)); [done|].
      set_solver.
    + rewrite lookup_delete_ne by done. rewrite IH.
      destruct (decide (k ∈ ks)) as [Hin|Hin];
        destruct (decide (k ∈ k' :: ks)) as [Hin'|Hin']; set_solver.
Qed.

Lemma lookup_foldr_insert {V} (ks : list string) (v : V) (r : gmap string V) k :
  foldr (λ k, <[k:=v]>) r ks !! k = if decide (k ∈ ks) then Some v else r !! k.
Proof.
  induction ks as [|k' ks IH]; simpl.
  - destruct (decide (k ∈ [])) as [H|]; [by apply elem_of_nil in H | done].
  - destruct (decide (k' = k)) as [->|Hne].
    + rewrite lookup_insert_eq. destruct (decide (k ∈ k :: ks)); [done|].
      set_solver.
    + rewrite lookup_insert_ne by done. rewrite IH.
      destruct (decide (k ∈ ks)) as [Hin|Hin];
        destruct (decide (k ∈ k' :: ks)) as [Hin'|Hin']; set_solver.
Qed.

Lemma registry_add_Some c r r' :
  registry_add c r = Some r' ↔
  (∀ k, k ∈ cmd_keys c → r !! k = None)
  ∧ r' = foldr (λ k, <[k:=c]>) r (cmd_keys c).
Proof.
  unfold registry_add. destruct (forallb _ _) eqn:E.
  - rewrite forallb_forall in E. split.
    + intros [= <-]. split; [|done]. intros k Hk.
      apply list_elem_of_In, E in Hk. by apply bool_decide_eq_true in Hk.
    + by intros [_ ->].
  - split; [done|]. intros [Hf _]. apply not_true_iff_false in E.
    destruct E. apply forallb_forall. intros k Hk.
    apply bool_decide_eq_true, Hf, list_elem_of_In, Hk.
Qed.

Lemma registry_adds_lookup cs r r' k c :
  registry_adds cs r = Some r' → r !! k = Some c → r' !! k = Some c.
Proof.
  revert r. induction cs as [|c1 cs IH]; simpl; intros r; [congruence|].
  destruct (registry_add c1 r) as [r1|] eqn:E; [|done].
  intros H Hk. apply (IH r1); [done|].
  apply registry_add_Some in E as [Hf ->].
  rewrite lookup_foldr_insert. destruct (decide (k ∈ cmd_keys c1)); [|done].
  rewrite Hf in Hk; done.
Qed.

(** Registrations commute with dropping keys that are already bound. *)
Lemma registry_adds_delete cs r r' ks :
  registry_adds cs r = Some r' →
  (∀ k, k ∈ ks → is_Some (r !! k)) →
  registry_adds cs (foldr delete r ks) = Some (foldr delete r' ks).
Proof.
  revert r. induction cs as [|c1 cs IH]; simpl; intros r.
  - by intros [= ->].
  - destruct (registry_add c1 r) as [r1|] eqn:E; [|done].
    intros H Hks. apply registry_add_Some in E as [Hf ->].
    assert (registry_add c1 (foldr delete r ks) =
            Some (foldr delete (foldr (λ k, <[k:=c1]>) r (cmd_keys c1)) ks))
      as ->.
    { apply registry_add_Some. split.
      - intros k Hk. rewrite lookup_foldr_delete. rewrite (Hf k Hk).
        by destruct (decide _).
      - apply map_eq. intros k.
        rewrite lookup_foldr_insert, !lookup_foldr_delete, lookup_foldr_insert.
        destruct (decide (k ∈ cmd_keys c1)) as [Hk|]; [|done].
        destruct (decide (k ∈ ks)) as [Hk'|]; [|done].
        apply Hks in Hk' as [? Hk']. rewrite (Hf k Hk) in Hk'. done. }
    apply IH; [done|]. intros k Hk. rewrite lookup_foldr_insert.
    destruct (decide _); [eauto | by apply Hks].
Qed.

(** Registering commands and then removing them by name gives the registry
    back. *)
Lemma registry_adds_removes cs r r' :
  registry_adds cs r = Some r' →
  registry_removes (cmd_name <$> cs) r' = r.
Proof.
  revert r r'. induction cs as [|c cs IH]; intros r r'.
  - by intros [= ->].
  - cbn [registry_adds fmap list_fmap registry_removes].
    destruct (registry_add c r) as [r1|] eqn:E; [|done]. intros H.
    apply registry_add_Some in E as [Hf ->].
    assert (r' !! cmd_name c = Some c) as Hc.
    { eapply registry_adds_lookup; [done|]. rewrite lookup_foldr_insert.
      rewrite decide_True; [done|]. unfold cmd_keys. set_solver. }
    unfold registry_remove. rewrite Hc. cbn [snd].
    set (ks := cmd_name c :: cmd_keys c). apply IH.
    rewrite <- (registry_adds_delete cs _ _ ks H).
    + f_equal. apply map_eq. intros k.
      rewrite lookup_foldr_delete, lookup_foldr_insert.
      destruct (decide (k ∈ ks)) as [Hk|Hk].
      * apply Hf. subst ks. unfold cmd_keys in *. set_solver.
      * rewrite decide_False; [done|]. subst ks. set_solver.
    + intros k Hk. rewrite lookup_foldr_insert. rewrite decide_True; [eauto|].
      subst ks. unfold cmd_keys in *. set_solver.
Qed.

(** *** The listener table *)

Section remove_first.
Context {A : Type} `{EqDecision A}.
Implicit Types (x : A) (l : list A).

Lemma py_remove_None x l : py_remove x l = None ↔ x ∉ l.
Proof.
  induction l as [|y l IH]; simpl; [by split; [set_solver|]|].
  destruct (decide (x = y)) as [->|Hne].
  - split; [done | set_solver].
  - destruct (py_remove x l); simpl.
    + split; [done|]. intros Hn. apply not_elem_of_cons in Hn as [_ Hn].
      by apply IH in Hn.
    + split; [|done]. intros _. apply not_elem_of_cons. split; [done|].
      by apply IH.
Qed.

Lemma remove_first_notin x l : x ∉ l → remove_first x l = l.
Proof. intros H. unfold remove_first. by apply py_remove_None in H as ->. Qed.

Lemma remove_first_cons x l : x ∈ l → x :: remove_first x l ≡ₚ l.
Proof.
  unfold remove_first. induction l as [|y l IH]; simpl; [set_solver|].
  intros Hin. destruct (decide (x = y)) as [->|Hne]; [done|].
  apply elem_of_cons in Hin as [?|Hin]; [done|]. specialize (IH Hin).
  destruct (py_remove x l) as [l'|] eqn:E; simpl.
  - rewrite Permutation_swap. by f_equiv.
  - apply py_remove_None in E. done.
Qed.

Lemma remove_first_perm x l1 l2 :
  l1 ≡ₚ l2 → remove_first x l1 ≡ₚ remove_first x l2.
Proof.
  intros Hp. destruct (decide (x ∈ l1)) as [Hin|Hin].
  - apply (Permutation_cons_inv (a := x)).
    rewrite !remove_first_cons; [done| by rewrite <- Hp |done].
  - rewrite !remove_first_notin; [done| by rewrite <- Hp |done].
Qed.

Lemma remove_first_snoc x l : remove_first x (l ++ [x]) ≡ₚ l.
Proof.
  apply (Permutation_cons_inv (a := x)).
  rewrite remove_first_cons by set_solver.
  by rewrite Permutation_app_comm.
Qed.
End remove_first.

Lemma listeners_of_events_add f n ev name :
  listeners_of name (events_add f n ev) =
  if decide (name = n) then listeners_of name ev ++ [f]
  else listeners_of name ev.
Proof.
  unfold listeners_of, events_add.
  destruct (decide (name = n)) as [->|Hne].
  - destruct (ev !! n) eqn:E; by rewrite lookup_insert_eq.
  - destruct (ev !! n) eqn:E; by rewrite lookup_insert_ne.
Qed.

Lemma listeners_of_events_remove f n ev name :
  listeners_of name (events_remove f n ev) =
  if decide (name = n) then remove_first f (listeners_of name ev)
  else listeners_of name ev.
Proof.
  unfold listeners_of, events_remove.
  destruct (decide (name = n)) as [->|Hne].
  - destruct (ev !! n) eqn:E; [by rewrite lookup_insert_eq|].
    by rewrite E.
  - destruct (ev !! n) eqn:E; [by rewrite lookup_insert_ne | done].
Qed.

Lemma events_add_congr f n ev1 ev2 :
  same_listeners ev1 ev2 →
  same_listeners (events_add f n ev1) (events_add f n ev2).
Proof.
  intros H name. rewrite !listeners_of_events_add.
  destruct (decide _); by rewrite (H name).
Qed.

Lemma events_remove_congr f n ev1 ev2 :
  same_listeners ev1 ev2 →
  same_listeners (events_remove f n ev1) (events_remove f n ev2).
Proof.
  intros H name. rewrite !listeners_of_events_remove.
  destruct (decide _); [|done]. by apply remove_first_perm.
Qed.

Lemma events_add_comm f n g m ev :
  same_listeners (events_add f n (events_add g m ev))
                 (events_add g m (events_add f n ev)).
Proof.
  intros name. rewrite !listeners_of_events_add.
  destruct (decide (name = n)), (decide (name = m)); try done.
  rewrite <- !app_assoc. f_equiv. apply Permutation_swap.
Qed.

Lemma same_listeners_refl ev : same_listeners ev ev.
Proof. by intros name. Qed.

Lemma same_listeners_trans ev1 ev2 ev3 :
  same_listeners ev1 ev2 → same_listeners ev2 ev3 → same_listeners ev1 ev3.
Proof. intros H1 H2 name. by rewrite (H1 name). Qed.

Lemma events_adds_congr fs ev1 ev2 :
  same_listeners ev1 ev2 →
  same_listeners (events_adds fs ev1) (events_adds fs ev2).
Proof.
  revert ev1 ev2. induction fs as [|f fs IH]; intros ev1 ev2 H; simpl;
    [done|]. by apply IH, events_add_congr.
Qed.

Lemma events_adds_add fs f n ev :
  same_listeners (events_adds fs (events_add f n ev))
                 (events_add f n (events_adds fs ev)).
Proof.
  revert ev. induction fs as [|g fs IH]; intros ev; simpl;
    [apply same_listeners_refl|].
  eapply same_listeners_trans; [|apply IH].
  apply events_adds_congr, events_add_comm.
Qed.

Lemma events_remove_add f n ev :
  same_listeners (events_remove f n (events_add f n ev)) ev.
Proof.
  intros name. rewrite listeners_of_events_remove, listeners_of_events_add.
  destruct (decide _); [|done]. apply remove_first_snoc.
Qed.

Lemma events_removes_adds_gen fs ev ev' :
  same_listeners ev' (events_adds fs ev) →
  same_listeners (events_removes fs ev') ev.
Proof.
  revert ev ev'. induction fs as [|f fs IH]; intros ev ev' H; simpl; [done|].
  apply IH. simpl in H.
  eapply same_listeners_trans; [by apply events_remove_congr|].
  eapply same_listeners_trans;
    [apply events_remove_congr, events_adds_add|].
  apply events_remove_add.
Qed.

(** Adding listeners and then removing them leaves, for every event name,
    the listeners there were, up to order. *)
Lemma events_adds_removes fs ev :
  same_listeners (events_removes fs (events_adds fs ev)) ev.
Proof. apply events_removes_adds_gen, same_listeners_refl. Qed.

(** No key ever leaves the listener table. *)
Lemma events_add_keeps f n ev name :
  is_Some (ev !! name) → is_Some (events_add f n ev !! name).
Proof.
  unfold events_add. intros H.
  destruct (ev !! n); (destruct (decide (n = name)) as [->|];
    [rewrite lookup_insert_eq; eauto | by rewrite lookup_insert_ne]).
Qed.

Lemma events_remove_keeps f n ev name :
  is_Some (ev !! name) → is_Some (events_remove f n ev !! name).
Proof.
  unfold events_remove. intros H. destruct (ev !! n); [|done].
  destruct (decide (n = name)) as [->|];
    [rewrite lookup_insert_eq; eauto | by rewrite lookup_insert_ne].
Qed.

Lemma events_adds_keeps fs ev name :
  is_Some (ev !! name) → is_Some (events_adds fs ev !! name).
Proof.
  revert ev. induction fs as [|f fs IH]; intros ev H; simpl; [done|].
  by apply IH, events_add_keeps.
Qed.

Lemma events_removes_keeps fs ev name :
  is_Some (ev !! name) → is_Some (events_removes fs ev !! name).
Proof.
  revert ev. induction fs as [|f fs IH]; intros ev H; simpl; [done|].
  by apply IH, events_remove_keeps.
Qed.

(** *** The two loops over the members *)

Lemma add_member_tables cog nm b :
  match add_member cog nm b with
  | Ok _ b1 =>
      quiet_member nm = true
      ∧ registry_adds
          (set_cmd_instance (Some (cog_class cog))
             <$> option_list (member_command nm)) (commands b)
        = Some (commands b1)
      ∧ extra_events b1
        = events_adds (option_list (member_listener nm)) (extra_events b)
      ∧ cogs b1 = cogs b
  | Raise _ _ => True
  end.
Proof.
  destruct nm as [n [c|f|]];
    unfold add_member, member_command, member_listener, quiet_member; simpl.
  - destruct (cmd_parent c); simpl; [done|].
    unfold add_command. simpl.
    destruct (registry_add _ _) as [r|]; simpl; done.
  - destruct (is_event_name n); simpl; [|done].
    unfold add_listener. by destruct (l_coroutine f).
  - by destruct (is_event_name n).
Qed.

Lemma add_members_tables cog ms b b1 :
  for_each ms (add_member cog) b = Ok tt b1 →
  forallb quiet_member ms = true
  ∧ registry_adds
      (set_cmd_instance (Some (cog_class cog)) <$> omap member_command ms)
      (commands b)
    = Some (commands b1)
  ∧ extra_events b1
    = events_adds (omap member_listener ms) (extra_events b)
  ∧ cogs b1 = cogs b.
Proof.
  revert b. induction ms as [|nm ms IH]; simpl; intros b.
  - by intros [= <-].
  - unfold mbind, M_bind, bind.
    pose proof (add_member_tables cog nm b) as Hm.
    destruct (add_member cog nm b) as [[] b0|]; [|done].
    destruct Hm as (Hq & Hr & He & Hc). intros H.
    destruct (IH _ H) as (Hq' & Hr' & He' & Hc').
    rewrite Hq, Hq'. split; [done|]. rewrite Hc', Hc, He', He.
    split; [|split; [|done]].
    + destruct (member_command nm) as [c|]; simpl in *.
      * destruct (registry_add _ (commands b)); [|done].
        by injection Hr as ->.
      * injection Hr as Hr. by rewrite Hr.
    + by destruct (member_listener nm).
Qed.

Lemma remove_member_tables nm b :
  quiet_member nm = true →
  ∃ b2,
    remove_member nm b = Ok tt b2
    ∧ commands b2
      = registry_removes (cmd_name <$> option_list (member_command nm))
                         (commands b)
    ∧ extra_events b2
      = events_removes (option_list (member_listener nm)) (extra_events b)
    ∧ cogs b2 = cogs b.
Proof.
  destruct nm as [n [c|f|]];
    unfold remove_member, member_command, member_listener, quiet_member;
    simpl.
  - intros _. destruct (cmd_parent c); simpl; by eexists.
  - intros _. destruct (is_event_name n); simpl; by eexists.
  - destruct (is_event_name n); [done|]. by eexists.
Qed.

Lemma remove_members_tables ms b :
  forallb quiet_member ms = true →
  ∃ b2,
    for_each ms remove_member b = Ok tt b2
    ∧ commands b2
      = registry_removes (cmd_name <$> omap member_command ms) (commands b)
    ∧ extra_events b2
      = events_removes (omap member_listener ms) (extra_events b)
    ∧ cogs b2 = cogs b.
Proof.
  revert b. induction ms as [|nm ms IH]; simpl; intros b.
  - intros _. by exists b.
  - intros [Hq Hqs]%andb_prop.
    destruct (remove_member_tables nm b Hq) as (b0 & E & Hr & He & Hc).
    destruct (IH b0 Hqs) as (b2 & E2 & Hr2 & He2 & Hc2).
    exists b2. rewrite (bind_Ok _ _ _ _ _ E). split; [done|].
    rewrite Hr2, He2, Hc2, Hr, He, Hc. split; [|split; [|done]].
    + by destruct (member_command nm).
    + by destruct (member_listener nm).
Qed.

Lemma call_unload_tables c b :
  commands (state_of (call_unload c b)) = commands b
  ∧ extra_events (state_of (call_unload c b)) = extra_events b
  ∧ (quiet_hook (cog_unload c) = true → ∃ b', call_unload c b = Ok tt b').
Proof.
  unfold call_unload. destruct (cog_unload c) as [| |[]]; simpl;
    repeat split; try done; by eexists.
Qed.




(** ** Extensions: unloading *)

(** *** Deleting the collected indices, last first *)

Lemma foldl_delete_cons {A} (x : A) (l : list A) (js : list nat) :
  foldl (λ l index, delete index l) (x :: l) (S <$> js)
  = x :: foldl (λ l index, delete index l) l js.
Proof.
  revert l. induction js as [|j js IH]; intros l; simpl; [done|]. apply IH.
Qed.

Lemma imap_bind_shift {A} (P : A → bool) (f : nat → A → nat * A)
    (g : nat → nat) (l : list A) :
  (∀ index event, f index event = (g index, event)) →
  (imap f l ≫= (λ ie, if P ie.2 then [ie.1] else []))
  = g <$> (imap (λ index event, (index, event)) l
             ≫= (λ ie, if P ie.2 then [ie.1] else [])).
Proof.
  revert f g. induction l as [|x l IH]; intros f g Hf; [done|].
  rewrite !imap_cons. cbn [mbind list_bind]. rewrite Hf. simpl.
  rewrite fmap_app. f_equal; [by destruct (P x)|].
  rewrite (IH (f ∘ S) (g ∘ S)) by (intros; apply Hf).
  rewrite (IH ((λ index event, (index, event)) ∘ S) S) by done.
  by rewrite <- list_fmap_compose.
Qed.

Lemma delete_indices_filter {A} (P : A → bool) (l : list A) :
  delete_indices
    (imap (λ index event, (index, event)) l
       ≫= (λ ie, if P ie.2 then [ie.1] else [])) l
  = filter (λ x, P x = false) l.
Proof.
  unfold delete_indices. induction l as [|x l IH]; [done|].
  rewrite imap_cons. cbn [mbind list_bind]. simpl.
  rewrite (imap_bind_shift P _ S) by done. rewrite reverse_app, foldl_app.
  rewrite <- fmap_reverse, foldl_delete_cons, IH.
  destruct (P x) eqn:E; simpl.
  - rewrite filter_cons_False; [done | congruence].
  - by rewrite filter_cons_True.
Qed.

Lemma indices_of_module_filter lib b (event_list : list Listener) :
  delete_indices (indices_of_module lib b event_list) event_list
  = filter (λ f, getmodule_is (l_module f) lib b = false) event_list.
Proof.
  apply (delete_indices_filter (λ f, getmodule_is (l_module f) lib b)).
Qed.

(** *** The first loop: cogs *)

Lemma registry_removes_app ns1 ns2 r :
  registry_removes (ns1 ++ ns2) r
  = registry_removes ns2 (registry_removes ns1 r).
Proof. revert r. induction ns1 as [|n ns1 IH]; intros r; simpl; [done|]. apply IH. Qed.

Lemma events_removes_app fs1 fs2 ev :
  events_removes (fs1 ++ fs2) ev = events_removes fs2 (events_removes fs1 ev).
Proof. revert ev. induction fs1 as [|f fs1 IH]; intros ev; simpl; [done|]. apply IH. Qed.

Lemma getmodule_is_same n lib b b' :
  sys_modules b' = sys_modules b →
  getmodule_is n lib b' = getmodule_is n lib b.
Proof. unfold getmodule_is. by intros ->. Qed.

Lemma remove_cog_found name cog b :
  cogs b !! name = Some cog →
  quiet_teardown cog = true →
  ∃ b',
    remove_cog name b = Ok None b'
    ∧ cogs b' = delete name (cogs b)
    ∧ commands b'
      = registry_removes (cmd_name <$> omap member_command (cog_members cog))
                         (commands b)
    ∧ extra_events b'
      = events_removes (omap member_listener (cog_members cog))
                       (extra_events b)
    ∧ same_imports b b'.
Proof.
  intros Hc [Hq Hh]%andb_prop.
  pose proof (remove_cog_same_imports name b) as Hs.
  rewrite remove_cog_eq in *. rewrite Hc in *.
  destruct (remove_members_tables (cog_members cog)
              (set_cogs (delete name) b) Hq) as (b1 & E1 & Hr & He & Hcg).
  rewrite E1 in *. simpl in Hr, He, Hcg.
  destruct (call_unload_tables cog b1) as (Hr2 & He2 & Hret).
  destruct (Hret Hh) as [b2 E2]. rewrite E2 in *. simpl in *.
  pose proof (call_unload_cogs cog b1) as Hcg2. rewrite E2 in Hcg2.
  exists b2. split; [done|]. split; [by rewrite Hcg2, Hcg|].
  split; [by rewrite Hr2, Hr|]. split; [by rewrite He2, He | done].
Qed.

Lemma for_each_cons {A} (x : A) xs body b :
  for_each (x :: xs) body b =
  match body x b with
  | Ok _ b' => for_each xs body b'
  | Raise e b' => Raise e b'
  end.
Proof. done. Qed.

Lemma unload_cog_eq lib kc b :
  unload_cog lib kc b =
  if getmodule_is (cog_module kc.2) lib b
  then match remove_cog kc.1 b with
       | Ok _ b' => Ok tt b'
       | Raise e b' => Raise e b'
       end
  else Ok tt b.
Proof.
  unfold unload_cog, gets, mbind, M_bind, bind.
  destruct (getmodule_is _ _ _); [|done]. by destruct (remove_cog _ _).
Qed.

Section unload_cogs.
Variables (lib : ModuleObj) (b0 : Bot).

Let from_lib (kc : string * Cog) : Prop :=
  getmodule_is (cog_module kc.2) lib b0 = true.

Lemma unload_cog_loop (l : list (string * Cog)) (b : Bot) :
  NoDup l.*1 →
  same_imports b0 b →
  (∀ kc, kc ∈ l → cogs b !! kc.1 = Some kc.2) →
  (∀ kc, kc ∈ l → from_lib kc → quiet_teardown kc.2 = true) →
  ∃ b1,
    for_each l (unload_cog lib) b = Ok tt b1
    ∧ cogs b1 = foldr delete (cogs b) (filter from_lib l).*1
    ∧ commands b1
      = registry_removes
          (cmd_name <$> (filter from_lib l
                           ≫= (λ kc, omap member_command (cog_members kc.2))))
          (commands b)
    ∧ extra_events b1
      = events_removes
          (filter from_lib l
             ≫= (λ kc, omap member_listener (cog_members kc.2)))
          (extra_events b)
    ∧ same_imports b0 b1.
Proof.
  revert b. induction l as [|kc l IH]; intros b Hnd Hs Hin Hq.
  - exists b. rewrite filter_nil. by split_and!.
  - apply NoDup_cons in Hnd as [Hnotin Hnd].
    rewrite for_each_cons, unload_cog_eq.
    rewrite (getmodule_is_same _ _ b0 b) by apply Hs.
    destruct (getmodule_is (cog_module kc.2) lib b0) eqn:Hfrom.
    + destruct (remove_cog_found kc.1 kc.2 b) as (b' & E & Hc & Hr & He & Hs').
      { apply Hin. by left. }
      { apply Hq; [by left | done]. }
      rewrite E.
      destruct (IH b') as (b1 & E1 & Hc1 & Hr1 & He1 & Hs1).
      * done.
      * by eapply same_imports_trans.
      * intros kc' Hkc'. rewrite Hc, lookup_delete_ne.
        -- apply Hin. by right.
        -- intros Heq. apply Hnotin. rewrite Heq.
           apply list_elem_of_fmap. by exists kc'.
      * intros kc' Hkc'. apply Hq. by right.
      * exists b1. split; [done|].
        rewrite filter_cons_True by done.
        rewrite Hc1, Hr1, He1, Hc, Hr, He. cbn [mbind list_bind fmap list_fmap foldr].
        rewrite fmap_app, registry_removes_app, events_removes_app.
        split; [|done].
        apply map_eq. intros k. rewrite lookup_delete, !lookup_foldr_delete.
        rewrite lookup_delete. by repeat case_decide.
    + destruct (IH b) as (b1 & E1 & Hc1 & Hr1 & He1 & Hs1); try done.
      * intros kc' Hkc'. apply Hin. by right.
      * intros kc' Hkc'. apply Hq. by right.
      * exists b1. split; [done|].
        rewrite filter_cons_False; [done|]. unfold from_lib. congruence.
Qed.
End unload_cogs.

Lemma unload_cogs_result lib b :
  (∀ kc, kc ∈ lib_cogs lib b → quiet_teardown kc.2 = true) →
  ∃ b1,
    unload_cogs lib b = Ok tt b1
    ∧ cogs b1
      = filter (λ kc, getmodule_is (cog_module kc.2) lib b = false) (cogs b)
    ∧ commands b1
      = registry_removes (cmd_name <$> lib_cog_commands lib b) (commands b)
    ∧ extra_events b1
      = events_removes (lib_cog_listeners lib b) (extra_events b)
    ∧ same_imports b b1.
Proof.
  intros Hq. unfold unload_cogs, gets.
  unfold mbind at 1, M_bind at 1, bind at 1.
  destruct (unload_cog_loop lib b (map_to_list (cogs b)) b)
    as (b1 & E & Hc & Hr & He & Hs).
  - apply NoDup_fst_map_to_list.
  - apply same_imports_refl.
  - intros [k c] H. by apply elem_of_map_to_list in H.
  - intros kc Hin Hfrom. apply Hq. unfold lib_cogs.
    by apply list_elem_of_filter.
  - exists b1. split; [done|]. split; [|done].
    rewrite Hc. apply map_eq. intros k.
    rewrite lookup_foldr_delete, map_lookup_filter.
    destruct (cogs b !! k) as [c|] eqn:Ek; simpl.
    + destruct (getmodule_is (cog_module c) lib b) eqn:Hg.
      * rewrite decide_True.
        -- by rewrite option_guard_False by (simpl; congruence).
        -- apply list_elem_of_fmap. exists (k, c). split; [done|].
           apply list_elem_of_filter. split; [done|].
           by apply elem_of_map_to_list.
      * rewrite decide_False.
        -- by rewrite option_guard_True.
        -- intros ([k' c'] & -> & [Hg' Hin]%list_elem_of_filter)%list_elem_of_fmap.
           apply elem_of_map_to_list in Hin. simpl in *. congruence.
    + by destruct (decide _).
Qed.

(** *** The second loop: commands *)

Lemma unload_command_eq lib kc b :
  unload_command lib kc b =
  if command_module_is kc.2 lib
  then Ok tt (set_commands (λ r, (registry_remove (cmd_name kc.2) r).2) b)
  else Ok tt b.
Proof.
  unfold unload_command. destruct (command_module_is kc.2 lib); [|done].
  unfold mbind, M_bind, bind, remove_command.
  assert (∀ c, cmd_name (if is_group c
                         then recursively_remove_all_commands c else c)
               = cmd_name c) as ->; [|done].
  intros c. destruct (is_group c); [|done].
  unfold recursively_remove_all_commands. by destruct (cmd_commands c).
Qed.

Lemma unload_command_loop lib (l : list (string * Command)) b :
  ∃ b1,
    for_each l (unload_command lib) b = Ok tt b1
    ∧ commands b1
      = registry_removes
          (cmd_name <$> (filter (λ c, command_module_is c lib = true) l.*2))
          (commands b)
    ∧ cogs b1 = cogs b ∧ extra_events b1 = extra_events b
    ∧ same_imports b b1.
Proof.
  revert b. induction l as [|kc l IH]; intros b.
  - exists b. split_and!; try done.
  - rewrite for_each_cons, unload_command_eq. cbn [fmap list_fmap].
    destruct (command_module_is kc.2 lib) eqn:E.
    + destruct (IH (set_commands (λ r, (registry_remove (cmd_name kc.2) r).2) b))
        as (b1 & E1 & Hr & Hc & He & Hs).
      exists b1. rewrite filter_cons_True by done. by split_and!.
    + destruct (IH b) as (b1 & E1 & Hr & Hc & He & Hs).
      exists b1. rewrite filter_cons_False by congruence. by split_and!.
Qed.

Lemma unload_commands_result lib b :
  ∃ b1,
    unload_commands lib b = Ok tt b1
    ∧ commands b1
      = registry_removes (cmd_name <$> lib_commands lib (commands b))
                         (commands b)
    ∧ cogs b1 = cogs b ∧ extra_events b1 = extra_events b
    ∧ same_imports b b1.
Proof.
  unfold unload_commands, gets. unfold mbind at 1, M_bind at 1, bind at 1.
  apply unload_command_loop.
Qed.

(** *** The third loop and the eviction *)

Lemma unload_listeners_result lib b :
  unload_listeners lib b
  = Ok tt (set_extra_events
             (fmap (filter (λ f, getmodule_is (l_module f) lib b = false)))
             b).
Proof.
  unfold unload_listeners, modify. f_equal. unfold set_extra_events.
  f_equal. apply map_fmap_ext. intros k l _. apply indices_of_module_filter.
Qed.

Lemma evict_result name b :
  is_Some (sys_modules b !! name) →
  evict name b
  = Ok tt (set_sys_modules (delete name) (set_extensions (delete name) b)).
Proof.
  intros [m Hm]. unfold evict, modify, gets, mbind, M_bind, bind. simpl.
  by rewrite Hm.
Qed.

(** *** Removal by name in a consistent registry *)

Lemma registry_removes_keys (cs : list Command) (r0 : gmap string Command)
    (D : list string) :
  registry_consistent r0 →
  (∀ k c, k ∈ D → r0 !! k = Some c → ∀ k', k' ∈ cmd_keys c → k' ∈ D) →
  (∀ c, c ∈ cs →
        ∃ c', r0 !! cmd_name c = Some c' ∧ cmd_keys c' = cmd_keys c) →
  ∀ k, registry_removes (cmd_name <$> cs) (foldr delete r0 D) !! k
       = if decide (k ∈ D ++ concat (cmd_keys <$> cs)) then None
         else r0 !! k.
Proof.
  intros Hwf. revert D. induction cs as [|c cs IH]; intros D Hclosed Hcs k.
  - cbn [fmap list_fmap concat registry_removes]. rewrite app_nil_r.
    apply lookup_foldr_delete.
  - cbn [fmap list_fmap concat registry_removes].
    destruct (Hcs c) as (c' & Hc' & Hkeys); [by left|].
    assert ((registry_remove (cmd_name c) (foldr delete r0 D)).2
            = foldr delete r0 (D ++ cmd_keys c)) as ->.
    { unfold registry_remove. rewrite lookup_foldr_delete.
      apply map_eq. intros k1. destruct (decide (cmd_name c ∈ D)) as [Hin|Hin].
      - cbn [snd]. rewrite !lookup_foldr_delete.
        destruct (decide (k1 ∈ D)) as [H1|H1].
        + rewrite decide_True; [done | set_solver].
        + rewrite decide_False; [done|]. intros [?|H2]%elem_of_app; [done|].
          apply H1. eapply Hclosed; [exact Hin | exact Hc' |].
          by rewrite Hkeys.
      - rewrite Hc'. cbn [snd]. rewrite Hkeys, !lookup_foldr_delete.
        destruct (decide (k1 ∈ cmd_name c :: cmd_keys c)) as [H1|H1].
        + rewrite decide_True; [done|]. unfold cmd_keys in *. set_solver.
        + destruct (decide (k1 ∈ D)) as [H2|H2].
          * rewrite decide_True; [done | set_solver].
          * rewrite decide_False; [done|]. unfold cmd_keys in *. set_solver. }
    rewrite IH.
    + rewrite <- app_assoc. done.
    + intros k1 c1 [H1|H1]%elem_of_app Hk1 k' Hk'.
      * apply elem_of_app. left. by eapply Hclosed.
      * apply elem_of_app. right. rewrite <- Hkeys in H1.
        destruct (Hwf _ _ Hc') as [_ Hall]. rewrite (Hall _ H1) in Hk1.
        injection Hk1 as <-. by rewrite <- Hkeys.
    + intros c1 Hc1. apply Hcs. by right.
Qed.

(** *** Consistency is kept by the registry's own operations *)

Lemma registry_consistent_empty : registry_consistent ∅.
Proof. intros k c Hk. by rewrite lookup_empty in Hk. Qed.

Lemma registry_add_consistent c r r' :
  registry_consistent r → registry_add c r = Some r' → registry_consistent r'.
Proof.
  intros Hwf [Hfresh ->]%registry_add_Some k c1.
  rewrite lookup_foldr_insert. destruct (decide (k ∈ cmd_keys c)) as [Hk|Hk].
  - intros [= <-]. split; [done|]. intros k' Hk'.
    rewrite lookup_foldr_insert. by rewrite decide_True.
  - intros Hc1. destruct (Hwf _ _ Hc1) as [Hin Hall]. split; [done|].
    intros k' Hk'. rewrite lookup_foldr_insert.
    destruct (decide (k' ∈ cmd_keys c)) as [Hk2|Hk2]; [|by apply Hall].
    specialize (Hall _ Hk'). by rewrite (Hfresh _ Hk2) in Hall.
Qed.

Lemma registry_remove_consistent name r :
  registry_consistent r → registry_consistent (registry_remove name r).2.
Proof.
  intros Hwf. unfold registry_remove.
  destruct (r !! name) as [c|] eqn:Hc; [|done]. cbn [snd].
  intros k c1. rewrite lookup_foldr_delete.
  destruct (decide (k ∈ name :: cmd_keys c)) as [Hk|Hk]; [done|].
  intros Hc1. destruct (Hwf _ _ Hc1) as [Hin Hall]. split; [done|].
  intros k' Hk'. rewrite lookup_foldr_delete.
  destruct (decide (k' ∈ name :: cmd_keys c)) as [Hk2|Hk2]; [|by apply Hall].
  destruct Hk. assert (k' ∈ cmd_keys c) as Hk3.
  { apply elem_of_cons in Hk2 as [->|]; [|done]. by destruct (Hwf _ _ Hc). }
  destruct (Hwf _ _ Hc) as [_ Hallc].
  specialize (Hallc _ Hk3). rewrite (Hall _ Hk') in Hallc.
  injection Hallc as ->. by right.
Qed.

(** *** What the two command loops leave *)

Lemma elem_of_lib_cog_commands lib b m :
  m ∈ lib_cog_commands lib b ↔
  ∃ kc, kc ∈ lib_cogs lib b ∧ m ∈ omap member_command (cog_members kc.2).
Proof.
  unfold lib_cog_commands. rewrite list_elem_of_bind. naive_solver.
Qed.

Lemma elem_of_concat_keys (cs : list Command) k :
  k ∈ concat (cmd_keys <$> cs) ↔ ∃ c, c ∈ cs ∧ k ∈ cmd_keys c.
Proof.
  induction cs as [|c cs IH]; cbn [fmap list_fmap concat].
  - split; [by intros ?%elem_of_nil|]. by intros (c & ?%elem_of_nil & _).
  - rewrite elem_of_app, IH. split.
    + intros [Hk|(c' & Hc' & Hk)]; [exists c | exists c']; split; try done;
        [by left | by right].
    + intros (c' & [->|Hc']%elem_of_cons & Hk); [by left | right; eauto].
Qed.

Section commands_left.
Variables (lib : ModuleObj) (b : Bot).
Hypothesis Hwf : registry_consistent (commands b).
Hypothesis Hreg : cog_commands_registered lib b.

Let K1 := concat (cmd_keys <$> lib_cog_commands lib b).

Lemma cog_keys_bound k :
  k ∈ K1 ↔
  ∃ kc m, kc ∈ lib_cogs lib b
          ∧ m ∈ omap member_command (cog_members kc.2)
          ∧ commands b !! k
            = Some (set_cmd_instance (Some (cog_class kc.2)) m).
Proof.
  unfold K1. rewrite elem_of_concat_keys. split.
  - intros (m & (kc & Hkc & Hm)%elem_of_lib_cog_commands & Hk).
    exists kc, m. split; [done|]. split; [done|].
    destruct (Hwf _ _ (Hreg kc m Hkc Hm)) as [_ Hall]. by apply Hall.
  - intros (kc & m & Hkc & Hm & Hk). exists m. split.
    + apply elem_of_lib_cog_commands. eauto.
    + by destruct (Hwf _ _ Hk) as [Hin _].
Qed.

Lemma cog_keys_closed k c :
  k ∈ K1 → commands b !! k = Some c → ∀ k', k' ∈ cmd_keys c → k' ∈ K1.
Proof.
  intros (kc & m & Hkc & Hm & Hk)%cog_keys_bound Hc k' Hk'.
  apply cog_keys_bound. exists kc, m. split; [done|]. split; [done|].
  rewrite Hk in Hc. injection Hc as <-.
  destruct (Hwf _ _ Hk) as [_ Hall]. by apply Hall.
Qed.

(** After the cogs loop. *)
Lemma commands_after_cogs :
  registry_removes (cmd_name <$> lib_cog_commands lib b) (commands b)
  = foldr delete (commands b) K1.
Proof.
  apply map_eq. intros k.
  pose proof (registry_removes_keys (lib_cog_commands lib b) (commands b) []
                Hwf) as H.
  simpl in H. rewrite H.
  - by rewrite lookup_foldr_delete.
  - intros ? ? Hin. by apply elem_of_nil in Hin.
  - intros m (kc & Hkc & Hm)%elem_of_lib_cog_commands.
    eexists. split; [by apply Hreg|]. done.
Qed.

(** After the commands loop. *)
Lemma commands_after_commands k :
  let r1 := foldr delete (commands b) K1 in
  registry_removes (cmd_name <$> lib_commands lib r1) r1 !! k
  = if decide (k ∈ K1 ++ concat (cmd_keys <$> lib_commands lib r1))
    then None else commands b !! k.
Proof.
  intros r1. apply registry_removes_keys; [done | apply cog_keys_closed |].
  intros c [Hm Hc]%list_elem_of_filter.
  apply list_elem_of_fmap in Hc as ([k1 c1] & -> & Hc).
  apply elem_of_map_to_list in Hc. simpl. unfold r1 in Hc.
  rewrite lookup_foldr_delete in Hc. destruct (decide _); [done|].
  exists c1. split; [|done].
  destruct (Hwf _ _ Hc) as [_ Hall]. apply Hall. unfold cmd_keys.
  set_solver.
Qed.

(** Exactly the attributable commands are gone; the others are as they
    were. *)
Lemma commands_left k c :
  let r1 := foldr delete (commands b) K1 in
  registry_removes (cmd_name <$> lib_commands lib r1) r1 !! k = Some c
  ↔ commands b !! k = Some c ∧ ¬ command_attributable lib b c.
Proof.
  intros r1. unfold r1. rewrite commands_after_commands. fold r1.
  destruct (decide _) as [Hin|Hout].
  - split; [done|]. intros [Hk Hna]. destruct Hna.
    apply elem_of_app in Hin as [Hin|Hin].
    + apply cog_keys_bound in Hin as (kc & m & Hkc & Hm & Hk').
      right. exists kc, m. split; [done|]. split; [done|]. congruence.
    + apply elem_of_concat_keys in Hin as (c2 & Hc2 & Hk2).
      apply list_elem_of_filter in Hc2 as [Hm Hc2].
      apply list_elem_of_fmap in Hc2 as ([k1 c1] & -> & Hc2).
      apply elem_of_map_to_list in Hc2. simpl in *. unfold r1 in Hc2.
      rewrite lookup_foldr_delete in Hc2. destruct (decide _); [done|].
      destruct (Hwf _ _ Hc2) as [_ Hall]. rewrite (Hall _ Hk2) in Hk.
      injection Hk as <-. left. unfold command_module_is in Hm.
      by apply bool_decide_eq_true in Hm.
  - split; [|by intros [? _]]. intros Hk. split; [done|].
    intros [Hmod|(kc & m & Hkc & Hm & ->)]; apply Hout, elem_of_app.
    + right. apply elem_of_concat_keys. exists c. split.
      * apply list_elem_of_filter. split.
        { unfold command_module_is. by apply bool_decide_eq_true. }
        apply list_elem_of_fmap. exists (k, c). split; [done|].
        apply elem_of_map_to_list. unfold r1.
        rewrite lookup_foldr_delete. rewrite decide_False; [done|].
        intros Hin. apply Hout, elem_of_app. by left.
      * by destruct (Hwf _ _ Hk).
    + left. apply cog_keys_bound. by exists kc, m.
Qed.
End commands_left.

(** *** What the listener loops leave *)

Lemma filter_remove_first {A} `{EqDecision A} (P : A → Prop)
    `{∀ x, Decision (P x)} (x : A) (l : list A) :
  ¬ P x → filter P (remove_first x l) = filter P l.
Proof.
  intros Hx. unfold remove_first. induction l as [|y l IH]; simpl; [done|].
  destruct (decide (x = y)) as [->|Hne].
  - by rewrite filter_cons_False.
  - destruct (py_remove x l) as [l'|]; simpl; [|done].
    rewrite !filter_cons. by rewrite IH.
Qed.

Lemma events_removes_filter (P : Listener → Prop) `{∀ x, Decision (P x)}
    (fs : list Listener) ev name :
  (∀ f, f ∈ fs → ¬ P f) →
  filter P (listeners_of name (events_removes fs ev))
  = filter P (listeners_of name ev).
Proof.
  revert ev. induction fs as [|f fs IH]; intros ev Hfs; simpl; [done|].
  rewrite IH by (intros; apply Hfs; by right).
  rewrite listeners_of_events_remove. destruct (decide _); [|done].
  apply filter_remove_first. apply Hfs. by left.
Qed.

Lemma listeners_of_fmap (g : list Listener → list Listener) ev name :
  g [] = [] → listeners_of name (g <$> ev) = g (listeners_of name ev).
Proof.
  intros Hg. unfold listeners_of. rewrite lookup_fmap.
  by destruct (ev !! name).
Qed.

Lemma events_removes_dom fs ev name :
  is_Some (events_removes fs ev !! name) ↔ is_Some (ev !! name).
Proof.
  revert ev. induction fs as [|f fs IH]; intros ev; simpl; [done|].
  rewrite IH. unfold events_remove.
  destruct (ev !! l_name f) eqn:E; [|done].
  destruct (decide (l_name f = name)) as [<-|Hne].
  - rewrite lookup_insert_eq, E. split; eauto.
  - by rewrite lookup_insert_ne.
Qed.

(** *** The whole of [unload_extension] *)

Lemma unload_phases_eq lib b :
  unload_phases lib b =
  match unload_cogs lib b with
  | Ok _ b1 =>
      match unload_commands lib b1 with
      | Ok _ b2 => unload_listeners lib b2
      | Raise e b2 => Raise e b2
      end
  | Raise e b1 => Raise e b1
  end.
Proof. done. Qed.


Lemma registry_consistent_list (r : gmap string Command) :
  Forall (λ kc, kc.1 ∈ cmd_keys kc.2
                ∧ Forall (λ k', r !! k' = Some kc.2) (cmd_keys kc.2))
         (map_to_list r) →
  registry_consistent r.
Proof.
  rewrite Forall_forall. intros H k c Hk.
  apply elem_of_map_to_list, H in Hk as [Hin Hall]. split; [done|].
  by rewrite Forall_forall in Hall.
Qed.

Lemma lib_cogs_loaded_bot :
  lib_cogs greeter_lib loaded_bot = [("Greeter", Greeter)].
Proof. vm_compute. reflexivity. Qed.



(** * Further properties *)

(** ** Listener registration *)

Lemma set_extra_events_id (g : gmap string (list Listener) → _) b :
  g (extra_events b) = extra_events b → set_extra_events g b = b.
Proof. destruct b. unfold set_extra_events. simpl. by intros ->. Qed.

Lemma remove_first_middle {A} `{EqDecision A} (x : A) (l1 l2 : list A) :
  x ∉ l1 → remove_first x (l1 ++ x :: l2) = l1 ++ l2.
Proof.
  unfold remove_first. induction l1 as [|y l1 IH]; simpl; intros Hx.
  - by rewrite decide_True.
  - apply not_elem_of_cons in Hx as [Hne Hx]. rewrite decide_False by done.
    specialize (IH Hx). destruct (py_remove x (l1 ++ x :: l2)) eqn:E; simpl.
    + by rewrite IH.
    + apply py_remove_None in E. set_solver.
Qed.

(** X1.  [add_listener] raises [ClientException] on a function that is no
    coroutine and leaves the bot as it was; otherwise it returns, having put
    the function at the end of the listeners of the given name (by default
    the function's [__name__]) and touched the listeners of no other name. *)
Theorem add_listener_appends (func : Listener) (name : option string)
    (b : Bot) :
  if l_coroutine func then
    ∃ b',
      add_listener func name b = Ok tt b'
      ∧ (∀ ev, listeners_of ev (extra_events b')
               = if decide (ev = default (l_name func) name)
                 then listeners_of ev (extra_events b) ++ [func]
                 else listeners_of ev (extra_events b))
      ∧ commands b' = commands b ∧ cogs b' = cogs b
  else
    add_listener func name b
    = Raise (ClientException "Listeners must be coroutines") b.
Proof.
  unfold add_listener. destruct (l_coroutine func); simpl; [|done].
  eexists. split; [done|]. simpl. split; [|done]. intros ev.
  rewrite listeners_of_events_add. by destruct name.
Qed.

(** X2.  [remove_listener] of a function that is not among the listeners of
    the name, or under a name that is no key of the table, returns and
    leaves the bot exactly as it was. *)
Theorem remove_listener_absent (func : Listener) (name : option string)
    (b : Bot) :
  func ∉ listeners_of (default (l_name func) name) (extra_events b) →
  remove_listener func name b = Ok tt b.
Proof.
  intros Hf. unfold remove_listener, modify. f_equal.
  apply set_extra_events_id. unfold events_remove.
  replace (match name with Some n => n | None => l_name func end)
    with (default (l_name func) name) by by destruct name.
  unfold listeners_of in Hf.
  destruct (extra_events b !! default (l_name func) name) as [l|] eqn:E;
    [|done].
  simpl in Hf. rewrite remove_first_notin by done. by apply insert_id.
Qed.

Lemma remove_listener_absent_witness :
  remove_listener fine_listener (Some "on_pong") ping_bot = Ok tt ping_bot
  ∧ remove_listener on_ready_greeter (Some "on_ping") ping_bot
    = Ok tt ping_bot.
Proof.
  split.
  - apply (remove_listener_absent fine_listener (Some "on_pong") ping_bot).
    apply (bool_decide_unpack _). vm_compute. exact I.
  - apply (remove_listener_absent on_ready_greeter (Some "on_ping") ping_bot).
    apply (bool_decide_unpack _). vm_compute. exact I.
Defined.

(** X3.  [remove_listener] takes out one occurrence of the function, the
    first; later occurrences and every other listener keep their places, and
    the listeners of other names are untouched. *)
Theorem remove_listener_first_occurrence (func : Listener)
    (name : option string) (b : Bot) (l1 l2 : list Listener) :
  extra_events b !! default (l_name func) name = Some (l1 ++ func :: l2) →
  func ∉ l1 →
  ∃ b',
    remove_listener func name b = Ok tt b'
    ∧ extra_events b' !! default (l_name func) name = Some (l1 ++ l2)
    ∧ (∀ ev, ev ≠ default (l_name func) name →
             extra_events b' !! ev = extra_events b !! ev).
Proof.
  intros Hl Hf. eexists. split; [done|]. simpl. unfold events_remove.
  replace (match name with Some n => n | None => l_name func end)
    with (default (l_name func) name) by by destruct name.
  rewrite Hl, remove_first_middle by done.
  split; [apply lookup_insert_eq|]. intros ev Hne. by rewrite lookup_insert_ne.
Qed.

Lemma remove_listener_first_occurrence_witness :
  ∃ b',
    remove_listener fine_listener None
      (set_extra_events
         <["on_ping" := [failing_listener; fine_listener; fine_listener]]>
         ping_bot) = Ok tt b'
    ∧ extra_events b' !! "on_ping" = Some [failing_listener; fine_listener].
Proof.
  destruct (remove_listener_first_occurrence fine_listener None
              (set_extra_events
                 <["on_ping" := [failing_listener; fine_listener;
                                 fine_listener]]> ping_bot)
              [failing_listener] [fine_listener])
    as (b' & E & Hl & _).
  - vm_compute. reflexivity.
  - apply (bool_decide_unpack _). vm_compute. exact I.
  - exists b'. split; [exact E | exact Hl].
Defined.

(** X4.  Removing a listener right after adding it gives back, for every
    name, the listeners there were: up to order in general, and exactly when
    the function was not yet registered under the name.  The name itself
    stays a key of the table. *)
Theorem add_then_remove_listener (func : Listener) (name : option string)
    (b b1 : Bot) :
  add_listener func name b = Ok tt b1 →
  ∃ b2,
    remove_listener func name b1 = Ok tt b2
    ∧ (∀ ev, listeners_of ev (extra_events b2)
             ≡ₚ listeners_of ev (extra_events b))
    ∧ (func ∉ listeners_of (default (l_name func) name) (extra_events b) →
       ∀ ev, listeners_of ev (extra_events b2)
             = listeners_of ev (extra_events b))
    ∧ is_Some (extra_events b2 !! default (l_name func) name).
Proof.
  unfold add_listener. destruct (l_coroutine func); simpl; [|done].
  intros [= <-]. eexists. split; [done|]. simpl.
  replace (match name with Some n => n | None => l_name func end)
    with (default (l_name func) name) by by destruct name.
  set (n := default (l_name func) name). split; [|split].
  - apply events_remove_add.
  - intros Hf ev.
    rewrite listeners_of_events_remove, listeners_of_events_add.
    destruct (decide (ev = n)) as [->|]; [|done].
    rewrite <- (app_nil_r (listeners_of n (extra_events b) ++ [func])).
    rewrite <- app_assoc. simpl. rewrite remove_first_middle by done.
    by rewrite app_nil_r.
  - apply events_remove_keeps. unfold events_add.
    destruct (extra_events b !! n); rewrite lookup_insert_eq; eauto.
Qed.

Lemma add_then_remove_listener_witness :
  ∃ b2,
    remove_listener fine_listener (Some "on_pong")
      (state_of (add_listener fine_listener (Some "on_pong") ping_bot))
    = Ok tt b2
    ∧ listeners_of "on_pong" (extra_events b2) = []
    ∧ is_Some (extra_events b2 !! "on_pong").
Proof.
  destruct (add_then_remove_listener fine_listener (Some "on_pong") ping_bot
              (state_of (add_listener fine_listener (Some "on_pong")
                           ping_bot)))
    as (b2 & E & _ & Hex & Hkey).
  - vm_compute. reflexivity.
  - exists b2. split; [exact E|]. split; [|exact Hkey].
    rewrite Hex; [vm_compute; reflexivity|].
    apply (bool_decide_unpack _). vm_compute. exact I.
Defined.

(** ** Cogs *)

Lemma registry_adds_lookups cs r r' :
  registry_adds cs r = Some r' →
  (∀ c k, c ∈ cs → k ∈ cmd_keys c → r' !! k = Some c)
  ∧ (∀ k, (∀ c, c ∈ cs → k ∉ cmd_keys c) → r' !! k = r !! k).
Proof.
  revert r. induction cs as [|c cs IH]; simpl; intros r.
  - intros [= ->]. split; [|done]. intros c k Hc. by apply elem_of_nil in Hc.
  - destruct (registry_add c r) as [r1|] eqn:E; [|done]. intros H.
    destruct (IH _ H) as [Hin Hout].
    apply registry_add_Some in E as [Hfresh ->]. split.
    + intros c1 k [->|Hc1]%elem_of_cons Hk; [|by apply Hin].
      eapply registry_adds_lookup; [done|]. rewrite lookup_foldr_insert.
      by rewrite decide_True.
    + intros k Hk. rewrite Hout by (intros; apply Hk; by right).
      rewrite lookup_foldr_insert. rewrite decide_False; [done|].
      apply Hk. by left.
Qed.

Lemma listeners_of_events_adds fs evs ev :
  listeners_of ev (events_adds fs evs)
  = listeners_of ev evs ++ filter (λ f, l_name f = ev) fs.
Proof.
  revert evs. induction fs as [|f fs IH]; intros evs; simpl.
  - by rewrite app_nil_r.
  - rewrite IH, listeners_of_events_add, filter_cons.
    destruct (decide (ev = l_name f)) as [->|Hne].
    + rewrite decide_True by done. by rewrite <- app_assoc.
    + by rewrite decide_False by done.
Qed.

Lemma add_member_cogs cog nm b :
  cogs (state_of (add_member cog nm b)) = cogs b.
Proof.
  unfold add_member. destruct nm as [n [c|f|]]; simpl.
  - destruct (cmd_parent c); [done|]. unfold add_command.
    by destruct (registry_add _ _).
  - destruct (is_event_name n); [|done]. unfold add_listener.
    by destruct (negb _).
  - by destruct (is_event_name n).
Qed.



(** X6.  Whether [add_cog] returns or raises, it leaves the cog in the cog
    table under its class name, in place of whatever cog was there, so that
    [get_cog] finds it; the cogs under other names are untouched.  Nothing
    is rolled back when a member fails to register. *)
Theorem add_cog_always_in_table (cog : Cog) (b : Bot) :
  get_cog (cog_class cog) (state_of (add_cog cog b))
  = Ok (Some cog) (state_of (add_cog cog b))
  ∧ ∀ name, name ≠ cog_class cog →
            cogs (state_of (add_cog cog b)) !! name = cogs b !! name.
Proof.
  assert (cogs (state_of (add_cog cog b)) = <[cog_class cog := cog]> (cogs b))
    as Hc.
  { unfold add_cog. unfold mbind at 1, M_bind at 1, bind at 1.
    unfold modify at 1.
    apply (for_each_invariant
             (λ b', cogs b' = <[cog_class cog := cog]> (cogs b))); [|done].
    intros nm b0 _ H. by rewrite add_member_cogs. }
  unfold get_cog, gets. rewrite Hc. split.
  - by rewrite lookup_insert_eq.
  - intros name Hne. by rewrite lookup_insert_ne.
Qed.

Lemma set_cogs_id (g : gmap string Cog → gmap string Cog) b :
  g (cogs b) = cogs b → set_cogs g b = b.
Proof. destruct b. unfold set_cogs. simpl. by intros ->. Qed.

(** X7.  [remove_cog] of a name under which no cog is registered returns
    [None] and leaves the bot exactly as it was. *)
Theorem remove_cog_unknown (name : string) (b : Bot) :
  cogs b !! name = None → remove_cog name b = Ok None b.
Proof.
  intros Hn. rewrite remove_cog_eq, Hn. f_equal.
  apply set_cogs_id. by apply delete_id.
Qed.

Lemma remove_cog_unknown_witness :
  remove_cog "Greeter" (Bot_init (Some false)) = Ok None (Bot_init (Some false))
  ∧ remove_cog "Greeter" (state_of (remove_cog "Greeter" loaded_bot))
    = Ok None (state_of (remove_cog "Greeter" loaded_bot)).
Proof.
  split.
  - apply (remove_cog_unknown "Greeter" (Bot_init (Some false))).
    vm_compute. reflexivity.
  - apply (remove_cog_unknown "Greeter"
             (state_of (remove_cog "Greeter" loaded_bot))).
    vm_compute. reflexivity.
Defined.

Lemma registry_removes_None names r k :
  r !! k = None → registry_removes names r !! k = None.
Proof.
  revert r. induction names as [|n names IH]; intros r Hk; simpl; [done|].
  apply IH. unfold registry_remove. destruct (r !! n); [|done]. cbn [snd].
  rewrite lookup_foldr_delete. by destruct (decide _).
Qed.

Lemma registry_removes_gone names r n :
  n ∈ names → registry_removes names r !! n = None.
Proof.
  revert r. induction names as [|n' names IH]; intros r Hn; simpl.
  - by apply elem_of_nil in Hn.
  - destruct (decide (n = n')) as [->|Hne].
    + apply registry_removes_None. unfold registry_remove.
      destruct (r !! n') eqn:E; [|done]. cbn [snd].
      rewrite lookup_foldr_delete. rewrite decide_True; [done|]. by left.
    + apply IH. apply elem_of_cons in Hn as [?|?]; done.
Qed.

Lemma remove_member_unloaded nm b :
  unloaded (state_of (remove_member nm b)) = unloaded b.
Proof.
  unfold remove_member. destruct nm as [n [c|f|]]; simpl.
  - by destruct (cmd_parent c).
  - by destruct (is_event_name n).
  - by destruct (is_event_name n).
Qed.

(** X8.  [remove_cog] of a registered cog takes the cog out of the table,
    removes from the registry the name of every parentless command among
    its members, and only then calls the teardown hook, once if the cog has
    one.  An [AttributeError] raised inside the hook is swallowed like a
    missing hook; any other exception of the hook propagates, with the cog
    and its commands already gone. *)
Theorem remove_cog_calls_hook_last (name : string) (cog : Cog) (b : Bot) :
  cogs b !! name = Some cog →
  forallb quiet_member (cog_members cog) = true →
  ∃ b',
    remove_cog name b
    = match cog_unload cog with
      | HookRaises e =>
          if is_attribute_error e then Ok None b' else Raise e b'
      | _ => Ok None b'
      end
    ∧ cogs b' !! name = None
    ∧ (∀ c, c ∈ omap member_command (cog_members cog) →
            commands b' !! cmd_name c = None)
    ∧ unloaded b'
      = unloaded b ++ match cog_unload cog with
                      | NoHook => []
                      | _ => [cog_class cog]
                      end.
Proof.
  intros Hc Hq. rewrite remove_cog_eq, Hc.
  pose proof (for_each_invariant
    (λ b', unloaded b' = unloaded b) (cog_members cog) remove_member
    (λ nm b0 _ H, eq_trans (remove_member_unloaded nm b0) H)
    (set_cogs (delete name) b) eq_refl) as Hu.
  destruct (remove_members_tables (cog_members cog)
              (set_cogs (delete name) b) Hq) as (b1 & E1 & Hr & _ & Hcg).
  rewrite E1 in *. simpl in Hu, Hr, Hcg.
  assert (∀ c, c ∈ omap member_command (cog_members cog) →
               commands b1 !! cmd_name c = None) as Hgone.
  { intros c Hin. rewrite Hr. apply registry_removes_gone.
    apply list_elem_of_fmap. by exists c. }
  assert (cogs b1 !! name = None) as Hcn.
  { rewrite Hcg. apply lookup_delete_eq. }
  unfold call_unload.
  destruct (cog_unload cog) as [| |e]; simpl.
  - exists b1. by rewrite app_nil_r.
  - eexists. split; [done|]. simpl. by rewrite Hu.
  - destruct e; simpl; eexists; (split; [done|]); simpl; by rewrite Hu.
Qed.

Lemma remove_cog_calls_hook_last_witness :
  ∃ b',
    remove_cog "Grumpy" (state_of (add_cog Grumpy (Bot_init (Some false))))
    = Raise (OtherError "teardown") b'
    ∧ cogs b' !! "Grumpy" = None
    ∧ unloaded b' = ["Grumpy"].
Proof.
  destruct (remove_cog_calls_hook_last "Grumpy" Grumpy
              (state_of (add_cog Grumpy (Bot_init (Some false)))))
    as (b' & E & Hc & _ & Hu).
  - vm_compute. reflexivity.
  - reflexivity.
  - exists b'. split; [exact E|]. split; [exact Hc | exact Hu].
Defined.

(** ** Extensions *)

Lemma unload_phases_result lib b :
  (∀ kc, kc ∈ lib_cogs lib b → quiet_teardown kc.2 = true) →
  ∃ b3, unload_phases lib b = Ok tt b3 ∧ same_imports b b3.
Proof.
  intros Hq. rewrite unload_phases_eq.
  destruct (unload_cogs_result lib b Hq) as (b1 & -> & _ & _ & _ & Hs1).
  destruct (unload_commands_result lib b1) as (b2 & -> & _ & _ & _ & Hs2).
  rewrite unload_listeners_result. eexists. split; [done|].
  eapply same_imports_trans; [done|]. eapply same_imports_trans; [done|].
  by repeat split.
Qed.

Lemma import_module_miss source name b lib b1 :
  sys_modules b !! name = None →
  import_module source name b = Ok lib b1 →
  mod_id lib = next_module_id b
  ∧ executed b1 = executed b ++ [name]
  ∧ next_module_id b1 = S (next_module_id b)
  ∧ sys_modules b1 = <[name := lib]> (sys_modules b)
  ∧ extensions b1 = extensions b.
Proof.
  unfold import_module. intros ->. destruct (source name); [|done].
  by intros [= <- <-].
Qed.

(** X9.  When [load_extension] returns for a name that was not loaded, the
    module it imported is in the load table and in the module cache under
    that name, the top-level code has run once if the module was not cached
    and not at all if it was, and loading the name again returns at once
    with the bot unchanged. *)
Theorem load_extension_records
    (source : string → option (nat → option (list Action)))
    (name : string) (b b1 : Bot) :
  extensions b !! name = None →
  load_extension source name b = Ok tt b1 →
  (∃ lib, extensions b1 !! name = Some lib
          ∧ sys_modules b1 !! name = Some lib)
  ∧ executed b1
    = executed b ++ (if sys_modules b !! name is Some _ then [] else [name])
  ∧ load_extension source name b1 = Ok tt b1.
Proof.
  intros Hn. rewrite load_extension_eq, Hn.
  destruct (import_module source name b) as [lib b0|] eqn:Ei; [|done].
  destruct (mod_setup lib) as [setup|]; [|done].
  pose proof (for_each_same_imports setup run_action
                run_action_same_imports b0) as (Hs & _ & Hx & _).
  destruct (for_each setup run_action b0) as [[] b2|]; [|done].
  intros [= <-]. simpl in *.
  pose proof (import_module_caches _ _ _ _ _ Ei) as [Hc _].
  split; [|split].
  - exists lib. rewrite lookup_insert_eq, Hs. done.
  - rewrite Hx. destruct (sys_modules b !! name) as [m|] eqn:Em.
    + rewrite (import_module_cached _ _ _ _ Em) in Ei.
      injection Ei as <- <-. by rewrite app_nil_r.
    + by apply import_module_miss in Ei as (_ & -> & _).
  - rewrite load_extension_eq. simpl. by rewrite lookup_insert_eq.
Qed.

Lemma load_extension_records_witness :
  (∃ lib, extensions loaded_bot !! "greeter" = Some lib
          ∧ sys_modules loaded_bot !! "greeter" = Some lib)
  ∧ executed loaded_bot = ["greeter"]
  ∧ load_extension example_source "greeter" loaded_bot = Ok tt loaded_bot.
Proof.
  apply (load_extension_records example_source "greeter"
           (Bot_init (Some false)) loaded_bot).
  - vm_compute. reflexivity.
  - vm_compute. reflexivity.
Defined.

(** X10.  Nothing is rolled back when loading fails.  When the module cannot
    be imported, [load_extension] raises the import error and the bot is as
    it was.  When a registration of [setup] raises, [load_extension] raises
    the same exception in the state [setup] had reached: the name is not in
    the load table, the module stays in the module cache, and what [setup]
    registered before the failure stays registered. *)
Theorem load_extension_failure_keeps_effects
    (source : string → option (nat → option (list Action)))
    (name : string) (b : Bot) :
  extensions b !! name = None →
  (sys_modules b !! name = None → source name = None →
   load_extension source name b = Raise (ImportError name) b)
  ∧ (∀ lib b1 setup e b2,
       import_module source name b = Ok lib b1 →
       mod_setup lib = Some setup →
       for_each setup run_action b1 = Raise e b2 →
       load_extension source name b = Raise e b2
       ∧ extensions b2 !! name = None
       ∧ sys_modules b2 !! name = Some lib).
Proof.
  intros Hn. rewrite load_extension_eq, Hn. split.
  - intros Hc Hs. unfold import_module. by rewrite Hc, Hs.
  - intros lib b1 setup e b2 Hi Hs Hf. rewrite Hi, Hs, Hf.
    pose proof (for_each_same_imports setup run_action
                  run_action_same_imports b1) as (Hsm & Hex & _).
    rewrite Hf in Hsm, Hex. simpl in *.
    apply import_module_caches in Hi as [Hc He].
    split; [done|]. by rewrite Hex, He, Hsm.
Qed.

Lemma load_extension_failure_keeps_effects_witness :
  load_extension more_source "nowhere" (Bot_init (Some false))
  = Raise (ImportError "nowhere") (Bot_init (Some false))
  ∧ ∃ b2,
      load_extension more_source "broken" (Bot_init (Some false))
      = Raise (ClientException "Command is already registered.") b2
      ∧ extensions b2 !! "broken" = None
      ∧ is_Some (sys_modules b2 !! "broken")
      ∧ cogs b2 !! "Greeter" = Some Greeter.
Proof.
  split.
  - apply (proj1 (load_extension_failure_keeps_effects more_source "nowhere"
                    (Bot_init (Some false)) eq_refl)); reflexivity.
  - eexists.
    edestruct (proj2 (load_extension_failure_keeps_effects more_source
                        "broken" (Bot_init (Some false)) eq_refl))
      as (E & Hx & Hs).
    + vm_compute. reflexivity.
    + reflexivity.
    + vm_compute. reflexivity.
    + split; [exact E|]. split; [exact Hx|]. split; [rewrite Hs; eauto|].
      vm_compute. reflexivity.
Defined.

Lemma evict_eq name b :
  evict name b
  = match sys_modules b !! name with
    | Some _ =>
        Ok tt (set_sys_modules (delete name) (set_extensions (delete name) b))
    | None => Raise (KeyError name) (set_extensions (delete name) b)
    end.
Proof.
  unfold evict, modify, gets, mbind, M_bind, bind, mthrow_exc. simpl.
  by destruct (sys_modules b !! name).
Qed.

(** X11.  Unloading an extension whose module is no longer in the module
    cache: the removal phases run, the name leaves the load table, and then
    the eviction raises [KeyError]; the module cache is untouched. *)
Theorem unload_extension_uncached (name : string) (lib : ModuleObj) (b : Bot) :
  extensions b !! name = Some lib →
  sys_modules b !! name = None →
  (∀ kc, kc ∈ lib_cogs lib b → quiet_teardown kc.2 = true) →
  ∃ b',
    unload_extension name b = Raise (KeyError name) b'
    ∧ extensions b' = delete name (extensions b)
    ∧ sys_modules b' = sys_modules b.
Proof.
  intros He Hc Hq. rewrite unload_extension_eq, He.
  destruct (unload_phases_result lib b Hq) as (b3 & -> & Hs & Hex & _).
  rewrite evict_eq, Hs, Hc. eexists. split; [done|].
  simpl. by rewrite Hex.
Qed.

Lemma unload_extension_uncached_witness :
  ∃ b',
    unload_extension "greeter"
      (set_sys_modules (delete "greeter") loaded_bot)
    = Raise (KeyError "greeter") b'
    ∧ extensions b' !! "greeter" = None
    ∧ sys_modules b' !! "greeter" = None.
Proof.
  destruct (unload_extension_uncached "greeter" greeter_lib
              (set_sys_modules (delete "greeter") loaded_bot)) as (b' & E & Hx & Hs).
  - vm_compute. reflexivity.
  - vm_compute. reflexivity.
  - intros kc Hkc. exfalso.
    assert (E : lib_cogs greeter_lib
                  (set_sys_modules (delete "greeter") loaded_bot) = [])
      by (vm_compute; reflexivity).
    rewrite E in Hkc. inversion Hkc.
  - exists b'. split; [exact E|]. rewrite Hx, Hs. split.
    + apply lookup_delete_eq.
    + vm_compute. reflexivity.
Defined.

(** X12.  Whatever [unload_extension] raises other than the [KeyError] of
    the eviction comes from the removal phases, and then the final clean-up
    has not run: the name is still in the load table and the module cache is
    as it was. *)
Theorem unload_extension_aborted (name : string) (b b' : Bot) (e : Exc) :
  unload_extension name b = Raise e b' →
  e ≠ KeyError name →
  extensions b' = extensions b ∧ sys_modules b' = sys_modules b.
Proof.
  rewrite unload_extension_eq. intros H Hne.
  destruct (extensions b !! name) as [lib|]; [|done].
  pose proof (unload_phases_same_imports lib b) as (Hs & Hex & _).
  destruct (unload_phases lib b) as [[] b3|e3 b3]; simpl in *.
  - rewrite evict_eq in H.
    destruct (sys_modules b3 !! name); [done|]. by injection H as <- _.
  - by injection H as _ <-.
Qed.

Lemma unload_extension_aborted_witness :
  ∃ b',
    unload_extension "grumpy"
      (state_of (load_extension more_source "grumpy" (Bot_init None)))
    = Raise (OtherError "teardown") b'
    ∧ is_Some (extensions b' !! "grumpy")
    ∧ is_Some (sys_modules b' !! "grumpy")
    ∧ cogs b' !! "Grumpy" = None.
Proof.
  eexists. split; [vm_compute; reflexivity|].
  edestruct (unload_extension_aborted "grumpy"
               (state_of (load_extension more_source "grumpy" (Bot_init None))))
    as [Hx Hs].
  - vm_compute. reflexivity.
  - discriminate.
  - rewrite Hx, Hs. split; [|split]; vm_compute; eauto.
Defined.

(** X13.  Unloading evicts the module from the module cache, so loading the
    name again runs the module's top-level code a second time and yields a
    module object that is not the one unloaded. *)
Theorem reload_executes_again
    (source : string → option (nat → option (list Action)))
    (name : string) (lib : ModuleObj) (b b1 : Bot) :
  extensions b !! name = None →
  sys_modules b !! name = None →
  load_extension source name b = Ok tt b1 →
  extensions b1 !! name = Some lib →
  (∀ kc, kc ∈ lib_cogs lib b1 → quiet_teardown kc.2 = true) →
  ∃ b2,
    unload_extension name b1 = Ok tt b2
    ∧ extensions b2 !! name = None
    ∧ sys_modules b2 !! name = None
    ∧ executed (state_of (load_extension source name b2))
      = executed b ++ [name; name]
    ∧ ∀ lib', sys_modules (state_of (load_extension source name b2)) !! name
              = Some lib' →
              mod_id lib' ≠ mod_id lib.
Proof.
  intros Hn Hc Hl He Hq.
  pose proof Hl as Hl0.
  rewrite load_extension_eq, Hn in Hl0.
  destruct (import_module source name b) as [lib0 b0|] eqn:Ei; [|done].
  destruct (mod_setup lib0) as [setup|] eqn:Es; [|done].
  pose proof (for_each_same_imports setup run_action
                run_action_same_imports b0) as (Hs & _ & Hx & Hid).
  destruct (for_each setup run_action b0) as [[] b0'|]; [|done].
  injection Hl0 as <-. simpl in *.
  rewrite lookup_insert_eq in He. injection He as <-.
  pose proof Ei as Hsrc. unfold import_module in Hsrc. rewrite Hc in Hsrc.
  destruct (source name) as [code|] eqn:Esrc; [|done]. clear Hsrc.
  apply (import_module_miss _ _ _ _ _ Hc) in Ei
    as (Hmid & Hex0 & Hnx0 & Hsm0 & _).
  rewrite unload_extension_eq. simpl. rewrite lookup_insert_eq.
  destruct (unload_phases_result _ _ Hq) as (b3 & -> & Hs3 & Hex3 & Hx3 & Hid3).
  simpl in *. rewrite evict_eq, Hs3. simpl.
  rewrite Hs, Hsm0, lookup_insert_eq.
  eexists. split; [done|]. simpl.
  rewrite Hex3, Hs3, Hs, Hsm0. rewrite !lookup_delete_eq.
  split; [done|]. split; [done|].
  rewrite load_extension_eq. simpl. rewrite Hex3, lookup_delete_eq.
  unfold import_module. simpl. rewrite Hs3, Hs, Hsm0, lookup_delete_eq, Esrc.
  simpl.
  set (lib1 := mkModule _ _ _).
  set (bi := set_sys_modules _ _).
  assert (Hfin : ∀ bf : Bot,
            sys_modules bf = sys_modules bi → executed bf = executed bi →
            executed bf = executed b ++ [name; name]
            ∧ ∀ lib', sys_modules bf !! name = Some lib' →
                      mod_id lib' ≠ mod_id lib0).
  { intros bf Hsr Hxr. rewrite Hxr, Hsr. subst bi. simpl.
    rewrite Hx3, Hx, Hex0, <- app_assoc. split; [done|].
    rewrite lookup_insert_eq. intros lib' [= <-]. subst lib1. simpl.
    rewrite Hid3, Hid, Hnx0, Hmid. lia. }
  change (code (next_module_id b3)) with (mod_setup lib1).
  destruct (mod_setup lib1) as [setup1|].
  - pose proof (for_each_same_imports setup1 run_action
                  run_action_same_imports bi) as (Hsf & _ & Hxf & _).
    destruct (for_each setup1 run_action bi) as [[] bf|ef bf]; simpl in *;
      by apply Hfin.
  - by apply Hfin.
Qed.

Lemma reload_executes_again_witness :
  ∃ b2,
    unload_extension "greeter" loaded_bot = Ok tt b2
    ∧ extensions b2 !! "greeter" = None
    ∧ sys_modules b2 !! "greeter" = None
    ∧ executed (state_of (load_extension example_source "greeter" b2))
      = ["greeter"; "greeter"]
    ∧ ∀ lib', sys_modules (state_of (load_extension example_source "greeter" b2))
              !! "greeter" = Some lib' →
              mod_id lib' ≠ mod_id greeter_lib.
Proof.
  apply (reload_executes_again example_source "greeter" greeter_lib
           (Bot_init (Some false)) loaded_bot).
  - vm_compute. reflexivity.
  - vm_compute. reflexivity.
  - vm_compute. reflexivity.
  - vm_compute. reflexivity.
  - intros kc Hkc.
    assert (E : lib_cogs greeter_lib loaded_bot = [("Greeter", Greeter)])
      by (vm_compute; reflexivity).
    rewrite E in Hkc. apply list_elem_of_singleton in Hkc. subst kc.
    reflexivity.
Defined.

(** ** Dispatch *)

(** X14.  A task made by [_run_extra] never ends cancelled, and it calls
    [on_error] at most once, and only when the listener raised an instance
    of [Exception]; when the listener raises something that is only a
    [BaseException], [on_error] is not called and the task ends with that
    exception. *)
Theorem run_extra_never_cancelled
    (run_coro : Listener → list Arg → Outcome)
    (on_error : string → list Arg → Outcome)
    (coro : Listener) (event_name : string) (args : list Arg) :
  (_run_extra run_coro on_error coro event_name args).2 ≠ RaisesCancelled
  ∧ ((_run_extra run_coro on_error coro event_name args).1
     = if run_coro coro args is RaisesException _
       then [(event_name, args)] else [])
  ∧ ∀ w, run_coro coro args = RaisesBase w →
         _run_extra run_coro on_error coro event_name args
         = ([], RaisesBase w).
Proof.
  unfold _run_extra.
  destruct (run_coro coro args) as [| |e|w']; simpl;
    (split; [|split; [done|]]); try done.
  - by destruct (on_error event_name args).
  - by intros w [= <-].
Qed.

(** X15.  Registration and dispatch compose: after [add_listener] has
    registered a function, dispatching an event schedules what it scheduled
    before and then, when the registration name is [on_] followed by the
    event's name, one more task, for the new function, after all the others.
    A function registered under a name that does not begin with [on_] is
    therefore never scheduled. *)
Theorem dispatch_after_add_listener (func : Listener) (name : option string)
    (b b1 : Bot) (event_name : string) (args : list Arg) :
  add_listener func name b = Ok tt b1 →
  scheduled (state_of (dispatch event_name args b1))
  = scheduled (state_of (dispatch event_name args b))
    ++ (if decide (default (l_name func) name = String.append "on_" event_name)
        then [mkTask func event_name args] else []).
Proof.
  unfold add_listener. destruct (l_coroutine func); simpl; [|done].
  intros [= <-].
  destruct (dispatch_returns event_name args
              (set_extra_events
                 (events_add func
                    match name with Some n => n | None => l_name func end) b))
    as (b2 & -> & _ & Hs2 & _).
  destruct (dispatch_returns event_name args b) as (b3 & -> & _ & Hs3 & _).
  simpl in *. rewrite Hs2, Hs3.
  replace (match name with Some n => n | None => l_name func end)
    with (default (l_name func) name) by by destruct name.
  set (n := default (l_name func) name).
  set (ev := String.append "on_" event_name).
  rewrite <- app_assoc. f_equal.
  change (default [] (?m !! ev)) with (listeners_of ev m).
  rewrite listeners_of_events_add.
  destruct (decide (ev = n)) as [->|Hne].
  - rewrite decide_True by done. by rewrite map_app.
  - rewrite decide_False by done. by rewrite app_nil_r.
Qed.

Lemma dispatch_after_add_listener_witness :
  scheduled (state_of (dispatch "ping" []
     (state_of (add_listener fine_listener None ping_bot))))
  = [mkTask failing_listener "ping" []; mkTask fine_listener "ping" [];
     mkTask fine_listener "ping" []]
  ∧ scheduled (state_of (dispatch "ping" []
       (state_of (add_listener fine_listener (Some "ping") ping_bot))))
    = [mkTask failing_listener "ping" []; mkTask fine_listener "ping" []].
Proof.
  split.
  - rewrite (dispatch_after_add_listener fine_listener None ping_bot
               (state_of (add_listener fine_listener None ping_bot))
               "ping" []).
    + vm_compute. reflexivity.
    + vm_compute. reflexivity.
  - rewrite (dispatch_after_add_listener fine_listener (Some "ping") ping_bot
               (state_of (add_listener fine_listener (Some "ping") ping_bot))
               "ping" []).
    + vm_compute. reflexivity.
    + vm_compute. reflexivity.
Defined.

(** ** Processing one message *)

Lemma bind_Raise {A B} (m : M A) (k : A → M B) b e b' :
  m b = Raise e b' → (m ≫= k) b = Raise e b'.
Proof. unfold mbind, M_bind, bind. by intros ->. Qed.



(** X17.  [process_commands] returns with the bot exactly as it was, no
    event emitted and nothing invoked, when the message is the bot's own,
    and also when the prefix is one string that the text does not start
    with. *)
Theorem process_commands_ignores
    (command_prefix : PrefixSpec)
    (get_word : StringView → string * StringView)
    (invoke : Command → Context → M unit)
    (message : Message) (b : Bot) :
  author message = user b
  ∨ (∃ p, _get_prefix command_prefix message b = Ok (PStr p) b
          ∧ String.prefix p (content message) = false) →
  process_commands command_prefix get_word invoke message b = Ok tt b.
Proof.
  intros H. rewrite process_commands_eq. case_bool_decide; [done|].
  destruct H as [H|(p & -> & Hp)]; [done|].
  unfold match_prefix. by rewrite skip_string_start, Hp.
Qed.

Lemma process_commands_ignores_witness :
  process_commands (Static (PStr "!")) example_get_word example_invoke
                   own_message loaded_bot = Ok tt loaded_bot
  ∧ process_commands (Static (PStr "?!")) example_get_word example_invoke
                     user_message loaded_bot = Ok tt loaded_bot.
Proof.
  split.
  - apply (process_commands_ignores (Static (PStr "!")) example_get_word
             example_invoke own_message loaded_bot).
    left. reflexivity.
  - apply (process_commands_ignores (Static (PStr "?!")) example_get_word
             example_invoke user_message loaded_bot).
    right. exists "?!". split; reflexivity.
Defined.

(** X18.  With [when_mentioned_or] as the prefix, the listed prefixes are
    tried first and in order, and the mention only after all of them: the
    invoking prefix is a listed one that the text starts with, or else the
    mention, and then no listed prefix is a prefix of the text; and nothing
    matches only when neither a listed prefix nor the mention does.  The
    mention is the server's when the message has a server, and the bot
    user's otherwise. *)
Theorem when_mentioned_or_tries_mention_last
    (server_mention : Message → option string) (user_mention : Bot → string)
    (prefixes : list string) (message : Message) (b : Bot) :
  let mention := when_mentioned server_mention user_mention b message in
  mention
  = String.append (default (user_mention b) (server_mention message)) " "
  ∧ ∃ prefix,
      _get_prefix (when_mentioned_or server_mention user_mention prefixes)
                  message b = Ok prefix b
      ∧ match match_prefix prefix (mkView (content message) 0) with
        | Some (p, view') =>
            String.prefix p (content message) = true
            ∧ view' = mkView (content message) (String.length p)
            ∧ (p ∈ prefixes
               ∨ (p = mention
                  ∧ Forall (λ q, String.prefix q (content message) = false)
                           prefixes))
        | None =>
            Forall (λ q, String.prefix q (content message) = false) prefixes
            ∧ String.prefix mention (content message) = false
        end.
Proof.
  intros mention. split.
  { subst mention. unfold when_mentioned.
    by destruct (server_mention message). }
  eexists. split; [reflexivity|]. fold mention. unfold match_prefix.
  pose proof (find_skip_string_first (prefixes ++ [mention])
                (content message)) as H.
  destruct (find skip_string (prefixes ++ [mention]) _) as [[p|] view'];
    simpl.
  - destruct H as (before & after & Hps & Hb & Hp & ->).
    split; [done|]. split; [done|].
    destruct after as [|a after _] using rev_ind.
    + apply (app_inj_tail prefixes before mention p) in Hps as [Hb' Hm].
      right. split; [done|]. by rewrite Hb'.
    + left. rewrite app_comm_cons, app_assoc in Hps.
      apply app_inj_tail in Hps as [Hps _]. rewrite Hps. set_solver.
  - destruct H as [H _]. apply Forall_app in H as [H1 H2].
    split; [done|]. by inversion H2.
Qed.

(** ** The help command *)

Lemma send_pages_send_all d pages b :
  for_each pages (λ page, modify (send_message d (Page page))) b
  = Ok tt (send_all (map (λ p, (d, Page p)) pages) b).
Proof.
  revert b. induction pages as [|p pages IH]; intros b; simpl; [done|].
  unfold mbind, M_bind, bind. unfold modify at 1. by rewrite IH.
Qed.


(** X20.  Help for one name looks in the cog table first: a cog shadows a
    command of the same name.  Help for a path of two or more names never
    looks at the cogs: when the first name is a cog but no command, the
    not-found text is sent for it. *)
Theorem help_single_name_prefers_cog
    (format_help_for : Context → HelpTarget → list string)
    (ctx : Context) (name : string) (cog : Cog) (b : Bot) :
  cogs b !! name = Some cog →
  (∃ d,
     _default_help_command format_help_for ctx [name] b
     = Ok tt (send_all (map (λ p, (d, Page p))
                            (format_help_for ctx (HelpCog cog))) b))
  ∧ (commands b !! name = None →
     ∀ key keys,
       _default_help_command format_help_for ctx (name :: key :: keys) b
       = Ok tt (send_message (help_destination b ctx)
                  (NotFoundText (command_not_found b) name) b)).
Proof.
  intros Hc. split.
  - rewrite help_command_eq. cbv zeta.
    unfold help_pages, gets. unfold mbind at 1, M_bind at 1, bind at 1.
    cbv beta delta [id]. rewrite Hc. cbn [mret M_ret ret].
    rewrite send_pages_send_all. by eexists.
  - intros Hn key keys. rewrite help_command_eq. cbv zeta.
    by rewrite help_pages_chain, Hn.
Qed.

Lemma help_single_name_prefers_cog_witness :
  (∃ d,
     _default_help_command one_page help_ctx ["Greeter"] loaded_bot
     = Ok tt (send_all [(d, Page "Shows this message.")] loaded_bot))
  ∧ _default_help_command one_page help_ctx ["Greeter"; "hello"] loaded_bot
    = Ok tt (send_message (ToChannel "general")
               (NotFoundText "No command called {} found." "Greeter")
               loaded_bot).
Proof.
  destruct (help_single_name_prefers_cog one_page help_ctx "Greeter" Greeter
              loaded_bot) as [H1 H2].
  - vm_compute. reflexivity.
  - split; [exact H1|]. apply (H2 eq_refl "hello" []).
Defined.

(** X21.  The walk over a path composes: walking [keys1 ++ keys2] is walking
    [keys1] and, from the command reached, [keys2].  When the first part
    fails, its failure text is the only thing sent and the rest of the path
    is not looked at. *)
Theorem help_walk_app (d : Destination) (command : Command)
    (keys1 keys2 : list string) (b : Bot) :
  help_walk d command (keys1 ++ keys2) b
  = match help_walk d command keys1 b with
    | Ok (Some command') b' => help_walk d command' keys2 b'
    | r => r
    end.
Proof.
  revert command. induction keys1 as [|key keys1 IH]; intros command; simpl.
  - done.
  - destruct (cmd_commands command) as [subs|]; [|done].
    destruct (assoc_get key subs) as [c'|]; [apply IH | done].
Qed.

(** ** The keys of the listener table *)

Lemma keys_kept_refl b : keys_kept b b.
Proof. by intros k. Qed.

Lemma keys_kept_trans b1 b2 b3 :
  keys_kept b1 b2 → keys_kept b2 b3 → keys_kept b1 b3.
Proof. intros H1 H2 k Hk. by apply H2, H1. Qed.

Lemma keys_kept_same b b' : extra_events b' = extra_events b → keys_kept b b'.
Proof. intros H k. by rewrite H. Qed.

Lemma for_each_keys_kept {A} (xs : list A) body :
  (∀ x b, keys_kept b (state_of (body x b))) →
  ∀ b, keys_kept b (state_of (for_each xs body b)).
Proof.
  intros Hbody b.
  apply (for_each_invariant (keys_kept b)); [|apply keys_kept_refl].
  intros x b0 _ H. eapply keys_kept_trans; [done | apply Hbody].
Qed.

Lemma bind_keys_kept {A B} (m : M A) (k : A → M B) b :
  keys_kept b (state_of (m b)) →
  (∀ a b', keys_kept b' (state_of (k a b'))) →
  keys_kept b (state_of ((m ≫= k) b)).
Proof.
  unfold mbind, M_bind, bind. intros Hm Hk.
  destruct (m b) as [a b1|e b1]; simpl in *; [|done].
  eapply keys_kept_trans; [done | apply Hk].
Qed.

Lemma add_command_keys_kept c b : keys_kept b (state_of (add_command c b)).
Proof.
  unfold add_command. destruct (registry_add _ _); by apply keys_kept_same.
Qed.

Lemma add_listener_keys_kept f name b :
  keys_kept b (state_of (add_listener f name b)).
Proof.
  unfold add_listener. destruct (negb _); [apply keys_kept_refl|].
  intros k. apply events_add_keeps.
Qed.

Lemma remove_listener_keys_kept f name b :
  keys_kept b (state_of (remove_listener f name b)).
Proof. intros k. apply events_remove_keeps. Qed.

Lemma add_member_keys_kept cog nm b :
  keys_kept b (state_of (add_member cog nm b)).
Proof.
  unfold add_member. destruct nm as [n [c|f|]]; simpl.
  - destruct (cmd_parent c);
      [apply keys_kept_refl | apply add_command_keys_kept].
  - destruct (is_event_name n);
      [apply add_listener_keys_kept | apply keys_kept_refl].
  - destruct (is_event_name n); apply keys_kept_refl.
Qed.

Lemma remove_member_keys_kept nm b :
  keys_kept b (state_of (remove_member nm b)).
Proof.
  unfold remove_member. destruct nm as [n [c|f|]]; simpl.
  - destruct (cmd_parent c); by apply keys_kept_same.
  - destruct (is_event_name n);
      [apply remove_listener_keys_kept | apply keys_kept_refl].
  - destruct (is_event_name n); apply keys_kept_refl.
Qed.

Lemma add_cog_keys_kept cog b : keys_kept b (state_of (add_cog cog b)).
Proof.
  unfold add_cog. apply bind_keys_kept; [by apply keys_kept_same|].
  intros _ b'. apply for_each_keys_kept. apply add_member_keys_kept.
Qed.

Lemma remove_cog_keys_kept name b :
  keys_kept b (state_of (remove_cog name b)).
Proof.
  rewrite remove_cog_eq. destruct (cogs b !! name) as [c|];
    [|by apply keys_kept_same].
  pose proof (for_each_keys_kept (cog_members c) remove_member
                remove_member_keys_kept (set_cogs (delete name) b)) as H1.
  destruct (for_each _ _ _) as [[] b1|e b1]; simpl in *; [|done].
  pose proof (call_unload_tables c b1) as (_ & H2 & _).
  apply keys_kept_same in H2.
  destruct (call_unload c b1) as [[] b2|e b2]; simpl in *;
    by eapply keys_kept_trans.
Qed.

Lemma load_extension_keys_kept source name b :
  keys_kept b (state_of (load_extension source name b)).
Proof.
  rewrite load_extension_eq.
  destruct (extensions b !! name); [apply keys_kept_refl|].
  assert (keys_kept b (state_of (import_module source name b))) as Hi.
  { unfold import_module. destruct (sys_modules b !! name);
      [apply keys_kept_refl|]. destruct (source name); by apply keys_kept_same. }
  destruct (import_module source name b) as [lib b1|e b1]; simpl in *;
    [|done].
  destruct (mod_setup lib) as [setup|]; [|done].
  assert (keys_kept b1 (state_of (for_each setup run_action b1))) as Hf.
  { apply for_each_keys_kept. intros [c|c|f n] b0; simpl.
    - apply add_cog_keys_kept.
    - apply add_command_keys_kept.
    - apply add_listener_keys_kept. }
  destruct (for_each setup run_action b1) as [[] b2|e b2]; simpl in *;
    by eapply keys_kept_trans.
Qed.

Lemma unload_listeners_keys_kept lib b :
  keys_kept b (state_of (unload_listeners lib b)).
Proof.
  intros k. unfold unload_listeners, modify. simpl.
  rewrite lookup_fmap. by intros [l ->].
Qed.

Lemma unload_extension_keys_kept name b :
  keys_kept b (state_of (unload_extension name b)).
Proof.
  rewrite unload_extension_eq.
  destruct (extensions b !! name) as [lib|]; [|apply keys_kept_refl].
  assert (keys_kept b (state_of (unload_phases lib b))) as Hp.
  { unfold unload_phases. apply bind_keys_kept.
    - unfold unload_cogs, gets. unfold mbind, M_bind, bind.
      apply for_each_keys_kept. intros kc b0. rewrite unload_cog_eq.
      destruct (getmodule_is _ _ _); [|apply keys_kept_refl].
      pose proof (remove_cog_keys_kept kc.1 b0) as H.
      by destruct (remove_cog kc.1 b0).
    - intros _ b1. apply bind_keys_kept.
      + unfold unload_commands, gets. unfold mbind, M_bind, bind.
        apply for_each_keys_kept. intros kc b0. unfold unload_command.
        destruct (command_module_is _ _); by apply keys_kept_same.
      + intros _ b2. apply unload_listeners_keys_kept. }
  destruct (unload_phases lib b) as [[] b1|e b1]; simpl in *; [|done].
  eapply keys_kept_trans; [done|]. apply keys_kept_same.
  unfold evict, modify, gets, mbind, M_bind, bind, mthrow_exc. simpl.
  by destruct (sys_modules b1 !! name).
Qed.

(** X22.  No method of the bot ever takes a key out of the listener table:
    an event name that has been registered once stays a key, bound to a
    list that may be empty, through every registration and removal of
    listeners and cogs and every load and unload of an extension, whether
    the method returns or raises. *)
Theorem listener_keys_never_removed
    (source : string → option (nat → option (list Action))) (b : Bot) :
  (∀ func name, keys_kept b (state_of (add_listener func name b)))
  ∧ (∀ func name, keys_kept b (state_of (remove_listener func name b)))
  ∧ (∀ cog, keys_kept b (state_of (add_cog cog b)))
  ∧ (∀ name, keys_kept b (state_of (remove_cog name b)))
  ∧ (∀ name, keys_kept b (state_of (load_extension source name b)))
  ∧ (∀ name, keys_kept b (state_of (unload_extension name b))).
Proof.
  repeat split; intros.
  - apply add_listener_keys_kept.
  - apply remove_listener_keys_kept.
  - apply add_cog_keys_kept.
  - apply remove_cog_keys_kept.
  - apply load_extension_keys_kept.
  - apply unload_extension_keys_kept.
Qed.

(** ** The [listen] decorator *)

(** X23.  The decorator of [listen] hands back the function it was given,
    and registering is not idempotent: decorating the same coroutine twice
    under one name puts it twice at the end of the listeners of that name,
    and one [remove_listener] then leaves one registration behind. *)
Theorem listen_twice_registers_twice (name : option string) (func : Listener)
    (b : Bot) :
  l_coroutine func = true →
  ∃ b2,
    (listen name func ;; listen name func) b = Ok func b2
    ∧ listeners_of (default (l_name func) name) (extra_events b2)
      = listeners_of (default (l_name func) name) (extra_events b)
        ++ [func; func]
    ∧ listeners_of (default (l_name func) name)
        (extra_events (state_of (remove_listener func name b2)))
      ≡ₚ listeners_of (default (l_name func) name) (extra_events b)
         ++ [func].
Proof.
  intros Hc. unfold listen, add_listener. rewrite Hc. simpl.
  eexists. split; [done|]. simpl.
  replace (match name with Some n => n | None => l_name func end)
    with (default (l_name func) name) by by destruct name.
  set (n := default (l_name func) name). split.
  - rewrite !listeners_of_events_add, !decide_True by done.
    by rewrite <- app_assoc.
  - rewrite (events_remove_add func n (events_add func n (extra_events b)) n).
    by rewrite listeners_of_events_add, decide_True.
Qed.

Lemma listen_twice_registers_twice_witness :
  ∃ b2,
    (listen (Some "on_pong") fine_listener ;;
     listen (Some "on_pong") fine_listener) ping_bot = Ok fine_listener b2
    ∧ listeners_of "on_pong" (extra_events b2)
      = [fine_listener; fine_listener].
Proof.
  destruct (listen_twice_registers_twice (Some "on_pong") fine_listener
              ping_bot eq_refl) as (b2 & E & Hl & _).
  exists b2. split; [exact E|]. simpl in Hl. rewrite Hl. vm_compute.
  reflexivity.
Defined.
